(** * Microburbs Development Explorer: the schema helpers of [App.tsx]

    A shallow embedding of the pure "data shape to UI" helpers of the
    dashboard ([flatten], [prettifyKey], [classifyValue], [formatNumber],
    [collectSections], the [summaryCards] derivation) and of the demo payload
    of [api.ts], followed by the properties the specification states about
    them.

    Conventions of the embedding:
    - a JavaScript value is a term of [jsval]; a number is an IEEE 754
      binary64 (Rocq's primitive [float]), a string a sequence of 8-bit
      characters (the payloads handled here are ASCII);
    - an object is the list of its own enumerable properties in the order
      [Object.entries] enumerates them;
    - the object that [flatten] fills by assignment is a [jsobject], with the
      assignment [out[key] = v] modelled by [js_set];
    - an abrupt completion (a [TypeError], a [RangeError]) is an explicit
      result [Throw]. *)

From Stdlib Require Import ZArith List String Ascii Bool Lia Permutation.
From Stdlib Require Import Floats.PrimFloat Floats.FloatOps Floats.SpecFloat.
From Stdlib Require Import DecimalString.
Import ListNotations.

Set Warnings "-inexact-float,-register-all".

Local Open Scope string_scope.
Local Open Scope list_scope.

(* ================================================================== *)
(** ** JavaScript values *)

Inductive jsval : Type :=
| VUndefined
| VNull
| VBool (b : bool)
| VNum (n : float)
| VStr (s : string)
| VArr (xs : list jsval)
| VObj (es : list (string * jsval)).

(** The nested occurrences of [jsval] need their own induction principle. *)
Section jsval_induction.
Variable P : jsval -> Prop.
Hypothesis HUndefined : P VUndefined.
Hypothesis HNull : P VNull.
Hypothesis HBool : forall b, P (VBool b).
Hypothesis HNum : forall n, P (VNum n).
Hypothesis HStr : forall s, P (VStr s).
Hypothesis HArr : forall xs, Forall P xs -> P (VArr xs).
Hypothesis HObj : forall es, Forall (fun kv => P (snd kv)) es -> P (VObj es).

Fixpoint jsval_ind' (v : jsval) : P v :=
  match v with
  | VUndefined => HUndefined
  | VNull => HNull
  | VBool b => HBool b
  | VNum n => HNum n
  | VStr s => HStr s
  | VArr xs =>
      HArr xs ((fix go (l : list jsval) : Forall P l :=
                  match l with
                  | [] => Forall_nil _
                  | x :: l' => Forall_cons x (jsval_ind' x) (go l')
                  end) xs)
  | VObj es =>
      HObj es ((fix go (l : list (string * jsval))
                  : Forall (fun kv => P (snd kv)) l :=
                  match l with
                  | [] => Forall_nil _
                  | kv :: l' =>
                      Forall_cons (P := fun kv => P (snd kv)) kv
                        (jsval_ind' (snd kv)) (go l')
                  end) es)
  end.
End jsval_induction.

(** [typeof v] *)
Inductive jstype := TUndefined | TObject | TBoolean | TNumber | TString.

Definition typeof (v : jsval) : jstype :=
  match v with
  | VUndefined => TUndefined
  | VNull | VArr _ | VObj _ => TObject
  | VBool _ => TBoolean
  | VNum _ => TNumber
  | VStr _ => TString
  end.

Definition jstype_eqb (a b : jstype) : bool :=
  match a, b with
  | TUndefined, TUndefined | TObject, TObject | TBoolean, TBoolean
  | TNumber, TNumber | TString, TString => true
  | _, _ => false
  end.

(** [ToBoolean]: the falsy values are [undefined], [null], [false], [+0],
    [-0], [NaN] and the empty string. *)
Definition truthy_string (s : string) : bool :=
  match s with EmptyString => false | String _ _ => true end.

Definition truthy (v : jsval) : bool :=
  match v with
  | VUndefined | VNull => false
  | VBool b => b
  | VNum n => negb (is_zero n || is_nan n)
  | VStr s => truthy_string s
  | VArr _ | VObj _ => true
  end.

Definition Array_isArray (v : jsval) : bool :=
  match v with VArr _ => true | _ => false end.

(** Completions: a call returns normally or throws. *)
Inductive error := TypeError | RangeError.

Inductive completion (A : Type) : Type :=
| Normal (a : A)
| Throw (e : error).
Arguments Normal {A} a.
Arguments Throw {A} e.

Definition bind {A B} (c : completion A) (f : A -> completion B) : completion B :=
  match c with
  | Normal a => f a
  | Throw e => Throw e
  end.

Notation "x <- c ;; k" := (bind c (fun x => k))
  (at level 61, c at next level, right associativity).

(* ================================================================== *)
(** ** Strings of numbers *)

(** [String(i)] for an array index or a counter [i]. *)
Definition string_of_nat (n : nat) : string :=
  NilEmpty.string_of_uint (Nat.to_uint n).

Definition digit_char (d : Z) : ascii := ascii_of_nat (48 + Z.to_nat d).

(** The decimal digits of a non-negative integer, most significant first;
    [fuel] bounds the number of digits. *)
Fixpoint digits_of (fuel : nat) (z : Z) (acc : string) : string :=
  match fuel with
  | O => acc
  | S fuel' =>
      let acc' := String (digit_char (z mod 10)) acc in
      if (z <? 10)%Z then acc' else digits_of fuel' (z / 10) acc'
  end.

Definition string_of_Z (z : Z) : string :=
  if (z <? 0)%Z then "-" ++ digits_of 400 (- z) "" else digits_of 400 z "".

Fixpoint repeat_char (c : ascii) (n : nat) : string :=
  match n with O => "" | S n' => String c (repeat_char c n') end.

Module NumberToString.
(** ECMAScript [Number::toString(x)] in radix 10.  A finite positive [x]
    is [m * 2^e]; the decimal digits are those of the integer [s] with the
    fewest digits [k] such that [s * 10^(n-k)] still reads back as [x],
    that is, lies in the rounding interval of [x]. *)
Local Open Scope Z_scope.

(** [x = V/D], and the rounding interval of [x] is [[L/D, H/D]], its
    bounds included when the mantissa is even. *)
Record interval := { V : Z; L : Z; H : Z; D : Z; closed : bool }.

Definition interval_of (m : positive) (e : Z) : interval :=
  let mz := Z.pos m in
  let lower_gap := if (mz =? 2 ^ 52) && (-1074 <? e) then 1 else 2 in
  let e2 := e - 2 in
  let up := 2 ^ Z.max e2 0 in
  {| V := 4 * mz * up;
     L := (4 * mz - lower_gap) * up;
     H := (4 * mz + 2) * up;
     D := 2 ^ Z.max (- e2) 0;
     closed := Z.even mz |}.

(** The least [n] from [n0] on with [x < 10^n]. *)
Fixpoint magnitude (fuel : nat) (i : interval) (n : Z) : Z :=
  match fuel with
  | O => n
  | S fuel' =>
      if V i * 10 ^ Z.max (- n) 0 <? D i * 10 ^ Z.max n 0 then n
      else magnitude fuel' i (n + 1)
  end.

Definition within (i : interval) (lo x hi : Z) : bool :=
  if closed i then (lo <=? x) && (x <=? hi) else (lo <? x) && (x <? hi).

(** The [k]-digit candidate nearest to [x], if one lies in the interval:
    the result is [(s, n)]. *)
Definition candidate (i : interval) (n k : Z) : option (Z * Z) :=
  let p := n - k in
  let up := 10 ^ Z.max (- p) 0 in
  let B := D i * 10 ^ Z.max p 0 in
  let A := V i * up in
  let s1 := A / B in
  let s2 := s1 + 1 in
  let ok s := within i (L i * up) (s * B) (H i * up) in
  let norm s := if s =? 10 ^ k then (10 ^ (k - 1), n + 1) else (s, n) in
  match ok s1, ok s2 with
  | false, false => None
  | true, false => Some (norm s1)
  | false, true => Some (norm s2)
  | true, true =>
      let d1 := A - s1 * B in
      let d2 := s2 * B - A in
      if d1 <? d2 then Some (norm s1)
      else if d2 <? d1 then Some (norm s2)
      else Some (norm (if Z.even s1 then s1 else s2))
  end.

Fixpoint shortest (fuel : nat) (i : interval) (n k : Z) : Z * Z * Z :=
  match fuel with
  | O => (V i / D i, n, k)
  | S fuel' =>
      match candidate i n k with
      | Some (s, n') => (s, n', k)
      | None => shortest fuel' i n (k + 1)
      end
  end.

Definition exponent_part (n : Z) : string :=
  "e" ++ (if 0 <=? n - 1 then "+" else "-") ++ string_of_Z (Z.abs (n - 1)).

Definition layout (s n k : Z) : string :=
  let ds := string_of_Z s in
  if (k <=? n) && (n <=? 21) then
    ds ++ repeat_char "0" (Z.to_nat (n - k))
  else if (0 <? n) && (n <=? 21) then
    substring 0 (Z.to_nat n) ds ++ "."
      ++ substring (Z.to_nat n) (Z.to_nat (k - n)) ds
  else if (-6 <? n) && (n <=? 0) then
    "0." ++ repeat_char "0" (Z.to_nat (- n)) ++ ds
  else if k =? 1 then
    ds ++ exponent_part n
  else
    substring 0 1 ds ++ "." ++ substring 1 (Z.to_nat (k - 1)) ds
      ++ exponent_part n.

Definition positive_finite (m : positive) (e : Z) : string :=
  let i := interval_of m e in
  let n := magnitude 700 i (-324) in
  let '(s, n', k) := shortest 17 i n 1 in
  layout s n' k.

Definition toString (x : float) : string :=
  match Prim2SF x with
  | S754_nan => "NaN"
  | S754_zero _ => "0"
  | S754_infinity false => "Infinity"
  | S754_infinity true => "-Infinity"
  | S754_finite false m e => positive_finite m e
  | S754_finite true m e => "-" ++ positive_finite m e
  end.
End NumberToString.

Definition Number_toString := NumberToString.toString.

(* ================================================================== *)
(** ** Ordinary objects filled by assignment *)

Definition is_digit (c : ascii) : bool :=
  let n := nat_of_ascii c in ((48 <=? n) && (n <=? 57))%nat.

Fixpoint parse_digits (s : string) (acc : N) : option N :=
  match s with
  | EmptyString => Some acc
  | String c s' =>
      if is_digit c
      then parse_digits s' (10 * acc + N.of_nat (nat_of_ascii c - 48))%N
      else None
  end.

(** An array index is a canonical numeric string below [2^32 - 1];
    such keys are enumerated first, in ascending numeric order. *)
Definition array_index (k : string) : option N :=
  match k with
  | EmptyString => None
  | String c s' =>
      if Ascii.eqb c "0" then
        match s' with EmptyString => Some 0%N | _ => None end
      else
        match parse_digits k 0 with
        | Some n => if (n <=? 4294967294)%N then Some n else None
        | None => None
        end
  end.

Definition has_own (k : string) (ps : list (string * jsval)) : bool :=
  existsb (fun kv => String.eqb (fst kv) k) ps.

Fixpoint replace_own (k : string) (v : jsval) (ps : list (string * jsval))
  : list (string * jsval) :=
  match ps with
  | [] => []
  | (k', v') :: ps' =>
      if String.eqb k' k then (k, v) :: ps' else (k', v') :: replace_own k v ps'
  end.

Fixpoint insert_index (i : N) (k : string) (v : jsval)
    (ps : list (string * jsval)) : list (string * jsval) :=
  match ps with
  | [] => [(k, v)]
  | (k', v') :: ps' =>
      match array_index k' with
      | Some j =>
          if (j <? i)%N then (k', v') :: insert_index i k v ps'
          else (k, v) :: ps
      | None => (k, v) :: ps
      end
  end.

(** A new own property: after the smaller array indices when its key is an
    array index, else after all the present properties. *)
Definition define_own (k : string) (v : jsval) (ps : list (string * jsval))
  : list (string * jsval) :=
  match array_index k with
  | Some i => insert_index i k v ps
  | None => ps ++ [(k, v)]
  end.

(** An object created by [{}] and filled by assignments: [props] are its own
    properties in the order [Object.entries] lists them, [proto_setter]
    tells whether an assignment to [__proto__] still reaches the accessor
    that [Object.prototype] provides. *)
Record jsobject := { props : list (string * jsval); proto_setter : bool }.

Definition empty_object : jsobject := {| props := []; proto_setter := true |}.

(** [o[k] = v].  An own property is overwritten in place.  The accessor
    [__proto__] ignores a primitive [v] and changes the prototype otherwise:
    to [null] (no accessor left on the chain), to an array, or to an object
    (whose own [__proto__] property, if any, hides the accessor).  Any other
    assignment creates an own property. *)
Definition js_set (o : jsobject) (k : string) (v : jsval) : jsobject :=
  if has_own k (props o) then
    {| props := replace_own k v (props o); proto_setter := proto_setter o |}
  else if String.eqb k "__proto__" && proto_setter o then
    match v with
    | VNull => {| props := props o; proto_setter := false |}
    | VObj es =>
        {| props := props o; proto_setter := negb (has_own "__proto__" es) |}
    | _ => o
    end
  else
    {| props := define_own k v (props o); proto_setter := proto_setter o |}.

(** [Object.entries(o)] of such an object. *)
Definition entries_of (o : jsobject) : list (string * jsval) := props o.

(* ================================================================== *)
(** ** Iteration *)

Definition forEachM {A St : Type} (f : A -> St -> completion St)
  : list A -> St -> completion St :=
  fix go (l : list A) (s : St) : completion St :=
    match l with
    | [] => Normal s
    | a :: l' => s' <- f a s ;; go l' s'
    end.

Definition forEachiM {A St : Type} (f : nat -> A -> St -> completion St)
  : nat -> list A -> St -> completion St :=
  fix go (i : nat) (l : list A) (s : St) : completion St :=
    match l with
    | [] => Normal s
    | a :: l' => s' <- f i a s ;; go (S i) l' s'
    end.

Fixpoint indexed_from {A : Type} (i : nat) (l : list A) : list (string * A) :=
  match l with
  | [] => []
  | a :: l' => (string_of_nat i, a) :: indexed_from (S i) l'
  end.

Definition chars (s : string) : list jsval :=
  map (fun c => VStr (String c "")) (list_ascii_of_string s).

(** [Object.entries(v)]: own enumerable string-keyed properties. *)
Definition Object_entries (v : jsval) : completion (list (string * jsval)) :=
  match v with
  | VUndefined | VNull => Throw TypeError
  | VBool _ | VNum _ => Normal []
  | VStr s => Normal (indexed_from 0 (chars s))
  | VArr xs => Normal (indexed_from 0 xs)
  | VObj es => Normal es
  end.

(* ================================================================== *)
(** ** Schema helpers *)

(** [prefix ? `${prefix}.${k}` : k] *)
Definition join_path (prefix k : string) : string :=
  if truthy_string prefix then prefix ++ "." ++ k else k.

(** [v && typeof v === 'object' && !Array.isArray(v)] *)
Definition is_plain_object (v : jsval) : bool :=
  truthy v && jstype_eqb (typeof v) TObject && negb (Array_isArray v).

(** The callback of [flatten]'s [forEach]. *)
Definition flatten_entry (flatten : jsval -> string -> jsobject -> completion jsobject)
    (prefix k : string) (v : jsval) (out : jsobject) : completion jsobject :=
  let key := join_path prefix k in
  if is_plain_object v then flatten v key out
  else Normal (js_set out key v).

Fixpoint flatten (obj : jsval) (prefix : string) (out : jsobject) {struct obj}
  : completion jsobject :=
  if negb (truthy obj) then Normal out
  else
    match obj with
    | VUndefined | VNull => Throw TypeError
    | VBool _ | VNum _ => Normal out
    | VStr s =>
        forEachM (fun kv out => Normal (js_set out (join_path prefix (fst kv)) (snd kv)))
          (indexed_from 0 (chars s)) out
    | VArr xs =>
        forEachiM (fun i v out => flatten_entry flatten prefix (string_of_nat i) v out)
          0 xs out
    | VObj es =>
        forEachM (fun kv out => flatten_entry flatten prefix (fst kv) (snd kv) out)
          es out
    end.

(** [k.split(/[._]/g)]: the pieces between the separators, empty pieces
    included; the empty string splits into one empty piece. *)
Definition is_separator (c : ascii) : bool :=
  Ascii.eqb c "." || Ascii.eqb c "_".

Fixpoint split_key (s : string) : list string :=
  match s with
  | EmptyString => [""]
  | String c s' =>
      if is_separator c then "" :: split_key s'
      else
        match split_key s' with
        | t :: ts => String c t :: ts
        | [] => [String c ""]
        end
  end.

Definition is_lower (c : ascii) : bool :=
  let n := nat_of_ascii c in ((97 <=? n) && (n <=? 122))%nat.

Definition is_upper (c : ascii) : bool :=
  let n := nat_of_ascii c in ((65 <=? n) && (n <=? 90))%nat.

(** [x.replace(/([a-z])([A-Z])/g, '$1 $2')]: the matches are found from left
    to right, the search resuming after the end of the previous match. *)
Fixpoint camel_replace (x : string) : string :=
  match x with
  | EmptyString => ""
  | String a t =>
      match t with
      | EmptyString => String a ""
      | String b t' =>
          if is_lower a && is_upper b
          then String a (String " " (String b (camel_replace t')))
          else String a (camel_replace t)
      end
  end.

Definition toUpperCase (c : ascii) : ascii :=
  if is_lower c then ascii_of_nat (nat_of_ascii c - 32) else c.

(** [x.charAt(0).toUpperCase() + x.slice(1)] *)
Definition capitalize (x : string) : string :=
  match x with
  | EmptyString => ""
  | String c r => String (toUpperCase c) r
  end.

Definition prettifyKey (k : string) : string :=
  String.concat " " (map capitalize (map camel_replace (split_key k))).

Inductive kind := Num | Bool | Short | Json.

Definition classifyValue (v : jsval) : kind :=
  if jstype_eqb (typeof v) TNumber then Num
  else if jstype_eqb (typeof v) TBoolean then Bool
  else
    match v with
    | VStr s =>
        if ((0 <? String.length s) && (String.length s <? 120))%nat then Short
        else Json
    | _ => Json
    end.

Module Row.
Record t := mk { k : string; v : jsval }.
End Row.

Record Section_ := { title : string; path : string; rows : list Row.t }.

(** [v.map((item, i) => ({ k: `#${i + 1}`, v: item }))] *)
Fixpoint array_rows_from (i : nat) (items : list jsval) : list Row.t :=
  match items with
  | [] => []
  | item :: items' =>
      Row.mk ("#" ++ string_of_nat (i + 1)) item :: array_rows_from (S i) items'
  end.

Definition elements (v : jsval) : list jsval :=
  match v with VArr xs => xs | _ => [] end.

(** The body of [collectSections]'s loop, on the pair of the two local
    arrays [sections] and [scalars]. *)
Definition collect_entry (collectSections : jsval -> string -> completion (list Section_))
    (basePath k : string) (v : jsval) (st : list Section_ * list Row.t)
  : completion (list Section_ * list Row.t) :=
  let (sections, scalars) := st in
  let path := join_path basePath k in
  if truthy v && jstype_eqb (typeof v) TObject then
    if Array_isArray v then
      let rows := array_rows_from 0 (elements v) in
      Normal (sections ++ [{| title := k; path := path; rows := rows |}], scalars)
    else
      sub <- collectSections v path ;;
      Normal (sections ++ sub, scalars)
  else Normal (sections, scalars ++ [Row.mk k v]).

(** [basePath || 'Overview'] *)
Definition section_title (basePath : string) : string :=
  if truthy_string basePath then basePath else "Overview".

Definition finish_sections (basePath : string) (st : list Section_ * list Row.t)
  : list Section_ :=
  let (sections, scalars) := st in
  match scalars with
  | [] => sections
  | _ :: _ =>
      {| title := section_title basePath; path := basePath; rows := scalars |}
        :: sections
  end.

Fixpoint collectSections (obj : jsval) (basePath : string) {struct obj}
  : completion (list Section_) :=
  st <- (if negb (truthy obj) then Normal ([], [])   (* [obj || {}] *)
         else
           match obj with
           | VUndefined | VNull => Throw TypeError
           | VBool _ | VNum _ => Normal ([], [])
           | VStr s =>
               forEachM (fun kv st =>
                           Normal (fst st, snd st ++ [Row.mk (fst kv) (snd kv)]))
                 (indexed_from 0 (chars s)) ([], [])
           | VArr xs =>
               forEachiM (fun i v st =>
                            collect_entry collectSections basePath (string_of_nat i) v st)
                 0 xs ([], [])
           | VObj es =>
               forEachM (fun kv st =>
                           collect_entry collectSections basePath (fst kv) (snd kv) st)
                 es ([], [])
           end) ;;
  Normal (finish_sections basePath st).

(* ================================================================== *)
(** ** Summary cards *)

Record SummaryCard := { label : string; value : string; hint : option string }.

(** [Array.prototype.sort(cmp)]: a stable sort; [a] goes after [b] exactly
    when [cmp(a, b) > 0] (a [NaN] result counts as [0]). *)
Definition sort_insert {A : Type} (cmp : A -> A -> float) (a : A)
  : list A -> list A :=
  fix ins (l : list A) : list A :=
    match l with
    | [] => [a]
    | b :: l' => if (0 <? cmp a b)%float then b :: ins l' else a :: l
    end.

Definition Array_sort {A : Type} (cmp : A -> A -> float) (l : list A) : list A :=
  fold_right (sort_insert cmp) [] l.

(** [Object.entries(flat).filter(([, v]) => typeof v === 'number')] *)
Fixpoint numericEntries (es : list (string * jsval)) : list (string * float) :=
  match es with
  | [] => []
  | (k, VNum n) :: es' => (k, n) :: numericEntries es'
  | _ :: es' => numericEntries es'
  end.

(** [Object.entries(flat).filter(([, v]) => typeof v === 'string' && v.length < 80)] *)
Fixpoint shortText (es : list (string * jsval)) : list (string * string) :=
  match es with
  | [] => []
  | (k, VStr s) :: es' =>
      if (String.length s <? 80)%nat then (k, s) :: shortText es' else shortText es'
  | _ :: es' => shortText es'
  end.

Section Locale.
(** [new Intl.NumberFormat().format(n)] depends on the locale of the
    browser: it is a parameter of the formatter. *)
Variable Intl_NumberFormat_format : float -> string.

Definition formatNumber (n : float) : string :=
  if negb (is_finite n) then Number_toString n
  else if (1000 <=? abs n)%float then Intl_NumberFormat_format n
  else Number_toString n.

Definition topNums (flat : jsobject) : list SummaryCard :=
  map (fun kv => {| label := prettifyKey (fst kv);
                    value := formatNumber (snd kv);
                    hint := None |})
    (firstn 3 (Array_sort (fun a b => (snd b - snd a)%float)
                          (numericEntries (entries_of flat)))).

Definition topText (flat : jsobject) : list SummaryCard :=
  map (fun kv => {| label := prettifyKey (fst kv);
                    value := snd kv;
                    hint := Some "text field" |})
    (firstn 2 (shortText (entries_of flat))).

Definition summaryCards (raw : jsval) : completion (list SummaryCard) :=
  if negb (truthy raw) then Normal []
  else
    flat <- flatten raw "" empty_object ;;
    Normal (topNums flat ++ topText flat).
End Locale.

(* ================================================================== *)
(** ** The demo payload of [loadDemo] *)

Definition demo : jsval :=
  VObj
    [ ("address", VStr "123 George St, Sydney NSW");
      ("zoning", VObj [ ("code", VStr "B8");
                        ("name", VStr "Metropolitan Centre");
                        ("floorSpaceRatio", VNum 10.5);
                        ("maxHeightMeters", VNum 235) ]);
      ("lot", VObj [ ("areaSqm", VNum 1450);
                     ("frontageM", VNum 28.4);
                     ("depthM", VNum 51.2);
                     ("corner", VBool true) ]);
      ("overlays", VArr [ VObj [ ("name", VStr "Heritage Conservation Area");
                                 ("applies", VBool true) ];
                          VObj [ ("name", VStr "Flood Planning");
                                 ("applies", VBool false) ] ]);
      ("nearby", VObj [ ("schoolsWithin1km", VNum 4);
                        ("trainStationsWithin1km", VNum 1);
                        ("walkScore", VNum 98);
                        ("transitScore", VNum 100) ]);
      ("council", VObj [ ("name", VStr "City of Sydney");
                         ("devAppsLast12m", VNum 712);
                         ("medianProcessingDays", VNum 37) ]) ].

Fixpoint string_forall (p : ascii -> bool) (s : string) : bool :=
  match s with
  | EmptyString => true
  | String c s' => p c && string_forall p s'
  end.

(** A sample value of the locale parameter: the digits of the integer part
    of [String(n)] grouped by three with commas, which is what the [en-US]
    locale prints for an integer below [1e21]. *)
Fixpoint group3_rev (rev_digits : list ascii) : list ascii :=
  match rev_digits with
  | a :: b :: c :: ((_ :: _) as more) => a :: b :: c :: "," %char :: group3_rev more
  | _ => rev_digits
  end.

Definition group3 (digits : string) : string :=
  string_of_list_ascii (rev (group3_rev (rev (list_ascii_of_string digits)))).

Definition group_digits (ds : string) : string :=
  if string_forall is_digit ds then group3 ds else ds.

Definition en_US_integer (n : float) : string :=
  match Number_toString n with
  | String "-" ds => "-" ++ group_digits ds
  | ds => group_digits ds
  end.

(* ================================================================== *)
(** ** Specification-side notions *)

(** The camelCase rule in the words of the specification: a space goes
    between a lowercase letter and an uppercase letter that follows it
    immediately. *)
Fixpoint camel_spaces (x : string) : string :=
  match x with
  | EmptyString => ""
  | String a t =>
      String a
        (match t with
         | String b _ =>
             if is_lower a && is_upper b then String " " (camel_spaces t)
             else camel_spaces t
         | EmptyString => ""
         end)
  end.


Definition dotted (keys : list string) : string := String.concat "." keys.

(** The key paths of the leaves of a document: the values reached through
    nested objects only, an array being a leaf. *)
Fixpoint leaf_paths (D : jsval) : list (list string) :=
  match D with
  | VObj es =>
      flat_map (fun kv =>
                  match snd kv with
                  | VObj _ => map (cons (fst kv)) (leaf_paths (snd kv))
                  | _ => [[fst kv]]
                  end) es
  | _ => []
  end.

(** The number of elements of the arrays reached through nested objects
    only. *)
Fixpoint array_elements (D : jsval) : nat :=
  match D with
  | VObj es =>
      list_sum (map (fun kv =>
                       match snd kv with
                       | VArr xs => List.length xs
                       | VObj _ => array_elements (snd kv)
                       | _ => 0%nat
                       end) es)
  | _ => 0%nat
  end.

Definition total_rows (secs : list Section_) : nat :=
  list_sum (map (fun s => List.length (rows s)) secs).

Definition non_array (kv : string * jsval) : bool :=
  negb (Array_isArray (snd kv)).

Definition non_array_entries (flat : jsobject) : list (string * jsval) :=
  filter non_array (entries_of flat).

Definition entry_array_elements (v : jsval) : nat :=
  match v with
  | VArr xs => List.length xs
  | VObj _ => array_elements v
  | _ => 0%nat
  end.

(** The assignments [out[key] = v] that [flatten] performs, in order. *)
Definition flat_mapi {A B : Type} (f : nat -> A -> list B)
  : nat -> list A -> list B :=
  fix go (i : nat) (l : list A) : list B :=
    match l with
    | [] => []
    | a :: l' => f i a ++ go (S i) l'
    end.

Definition write_entry (flat_writes : jsval -> string -> list (string * jsval))
    (prefix k : string) (v : jsval) : list (string * jsval) :=
  if is_plain_object v then flat_writes v (join_path prefix k)
  else [(join_path prefix k, v)].

Fixpoint flat_writes (obj : jsval) (prefix : string) {struct obj}
  : list (string * jsval) :=
  if negb (truthy obj) then []
  else
    match obj with
    | VStr s =>
        map (fun kv => (join_path prefix (fst kv), snd kv)) (indexed_from 0 (chars s))
    | VArr xs =>
        flat_mapi (fun i v => write_entry flat_writes prefix (string_of_nat i) v) 0 xs
    | VObj es =>
        flat_map (fun kv => write_entry flat_writes prefix (fst kv) (snd kv)) es
    | _ => []
    end.

Definition assign (o : jsobject) (kv : string * jsval) : jsobject :=
  js_set o (fst kv) (snd kv).

Definition not_plain_object (v : jsval) : Prop :=
  match v with VObj _ => False | _ => True end.

(** The statement that the paths of [flatten(D)] are the dotted paths of
    the leaves of [D]. *)
Definition paths_are_leaf_paths (D : jsval) : Prop :=
  exists flat,
    flatten D "" empty_object = Normal flat
    /\ forall p, In p (map fst (entries_of flat)) <-> In p (map dotted (leaf_paths D)).

(** The statement that the rows of [collectSections(D)] are as many as the
    non-array entries of [flatten(D)] and the elements of the arrays of [D]
    together. *)
Definition rows_count_identity (D : jsval) : Prop :=
  exists flat secs,
    flatten D "" empty_object = Normal flat
    /\ collectSections D "" = Normal secs
    /\ total_rows secs
       = (List.length (non_array_entries flat) + array_elements D)%nat.

(** Predicates used by the proofs below. *)

Definition plain_char (c : ascii) : bool := negb (Ascii.eqb c ",").

Definition flatten_is_fold (v : jsval) : Prop :=
  forall prefix out,
    flatten v prefix out = Normal (fold_left assign (flat_writes v prefix) out).

Definition collect_returns (v : jsval) : Prop :=
  forall basePath, exists secs, collectSections v basePath = Normal secs.

Definition stores_no_plain_object (kv : string * jsval) : Prop :=
  not_plain_object (snd kv).

(** Below a non-empty prefix the assigned keys are the prefixed dotted
    paths of the leaves. *)
Definition keys_under_prefix (v : jsval) : Prop :=
  forall es, v = VObj es ->
  forall prefix, truthy_string prefix = true ->
    map fst (flat_writes v prefix)
    = map (fun ks => (prefix ++ "." ++ dotted ks)%string) (leaf_paths v).

(** The rows that an object contributes are its scalar leaves and the
    elements of its arrays. *)
Definition rows_of_object (v : jsval) : Prop :=
  forall es, v = VObj es ->
  forall basePath prefix,
  exists secs,
    collectSections v basePath = Normal secs
    /\ total_rows secs
       = (List.length (filter non_array (flat_writes v prefix)) + array_elements v)%nat.

(* ================================================================== *)
(** ** The rows as displayed: [String(v)], the [sections] memo, the cells *)

Definition mapM {A B : Type} (f : A -> completion B)
  : list A -> completion (list B) :=
  fix go (l : list A) : completion (list B) :=
    match l with
    | [] => Normal []
    | a :: l' => b <- f a ;; bs <- go l' ;; Normal (b :: bs)
    end.

(** [String(v)].  An array is joined with commas, [null] and [undefined]
    elements giving empty pieces.  A decoded object has no callable
    property: with an own [toString] the conversion to a primitive finds no
    method that returns one and throws a [TypeError], without it the
    inherited [Object.prototype.toString] answers. *)
Fixpoint ToString (v : jsval) : completion string :=
  match v with
  | VUndefined => Normal "undefined"
  | VNull => Normal "null"
  | VBool true => Normal "true"
  | VBool false => Normal "false"
  | VNum n => Normal (Number_toString n)
  | VStr s => Normal s
  | VArr xs =>
      parts <- mapM (fun x => match x with
                              | VUndefined | VNull => Normal ""
                              | _ => ToString x
                              end) xs ;;
      Normal (String.concat "," parts)
  | VObj es =>
      if has_own "toString" es then Throw TypeError
      else Normal "[object Object]"
  end.

Module RowData.
Record data := mk { k : string; v : string; t : kind }.
End RowData.

Module SectionWithCount.
Record t := mk { title : string; path : string; count : nat;
                 rows : list RowData.data }.
End SectionWithCount.

Section Display.
Variable Intl_NumberFormat_format : float -> string.

(** The callback of [g.rows.map] in the [sections] memo. *)
Definition display_row (r : Row.t) : completion RowData.data :=
  let t := classifyValue (Row.v r) in
  displayValue <- match t, Row.v r with
                  | Num, VNum n => Normal (formatNumber Intl_NumberFormat_format n)
                  | _, v => ToString v
                  end ;;
  Normal (RowData.mk (prettifyKey (Row.k r)) displayValue t).

Definition display_section (g : Section_) : completion SectionWithCount.t :=
  rows' <- mapM display_row (rows g) ;;
  Normal (SectionWithCount.mk (prettifyKey (title g)) (path g)
            (List.length (rows g)) rows').

Definition sections (raw : jsval) : completion (list SectionWithCount.t) :=
  if negb (truthy raw) then Normal []
  else
    groups <- collectSections raw "" ;;
    mapM display_section groups.
End Display.

Definition hex_digit_lower (d : nat) : ascii :=
  if (d <? 10)%nat then ascii_of_nat (48 + d) else ascii_of_nat (87 + d).

(** [QuoteJSONString]: the escapes of [JSON.stringify] inside a string. *)
Definition json_escape (c : ascii) : string :=
  let n := nat_of_ascii c in
  if (n =? 8)%nat then "\b"
  else if (n =? 9)%nat then "\t"
  else if (n =? 10)%nat then "\n"
  else if (n =? 12)%nat then "\f"
  else if (n =? 13)%nat then "\r"
  else if (n =? 34)%nat then String "\" (String c "")
  else if (n =? 92)%nat then "\\"
  else if (n <? 32)%nat then
    "\u00" ++ String (hex_digit_lower (n / 16)) (String (hex_digit_lower (n mod 16)) "")
  else String c "".

Fixpoint json_escape_all (s : string) : string :=
  match s with
  | EmptyString => ""
  | String c s' => json_escape c ++ json_escape_all s'
  end.

(** [JSON.stringify(s, null, 2)] of a string [s]. *)
Definition JSON_stringify_string (s : string) : string :=
  String (ascii_of_nat 34) (json_escape_all s ++ String (ascii_of_nat 34) "").

(** The text of the value cell of a row, as the JSX prints it. *)
Definition cell_text (row : RowData.data) : string :=
  match RowData.t row with
  | Num => RowData.v row
  | Bool => if truthy_string (RowData.v row) then "Yes" else "No"
  | Short => RowData.v row
  | Json => JSON_stringify_string (RowData.v row)
  end.

(** The count shown beside a section title:
    [s.count ? <span>({s.count})</span> : null]. *)
Definition count_badge (s : SectionWithCount.t) : option string :=
  match SectionWithCount.count s with
  | O => None
  | S _ => Some ("(" ++ string_of_nat (SectionWithCount.count s) ++ ")")%string
  end.


Definition quoted (s : string) : string :=
  String (ascii_of_nat 34) (s ++ String (ascii_of_nat 34) "").



(** [v && typeof v === 'object']: the entries that [collectSections] turns
    into sections of their own. *)
Definition is_container (v : jsval) : bool :=
  truthy v && jstype_eqb (typeof v) TObject.

Definition scalar_rows (es : list (string * jsval)) : list Row.t :=
  map (fun kv => Row.mk (fst kv) (snd kv))
    (filter (fun kv => negb (is_container (snd kv))) es).

(** No array reached through nested objects is empty. *)
Fixpoint no_empty_array (D : jsval) : bool :=
  match D with
  | VObj es =>
      forallb (fun kv =>
                 match snd kv with
                 | VArr [] => false
                 | VObj _ => no_empty_array (snd kv)
                 | _ => true
                 end) es
  | _ => true
  end.

Definition sections_have_rows (v : jsval) : Prop :=
  forall es, v = VObj es ->
  no_empty_array v = true ->
  forall basePath secs,
    collectSections v basePath = Normal secs ->
    Forall (fun s => rows s <> []) secs.

(** No lowercase letter is followed immediately by an uppercase letter. *)
Fixpoint no_camel (x : string) : bool :=
  match x with
  | EmptyString => true
  | String a t =>
      match t with
      | String b _ => negb (is_lower a && is_upper b)
      | EmptyString => true
      end && no_camel t
  end.

Definition first_not_lower (x : string) : bool :=
  match x with
  | EmptyString => true
  | String c _ => negb (is_lower c)
  end.

Definition not_separator (c : ascii) : bool := negb (is_separator c).

(* ================================================================== *)
(** ** [api.ts]: the query string *)

Definition BASE : string := "/mb/report_generator/api/sandbox/property/development".

(** [URLSearchParams.prototype.set]: the first pair of that name takes the
    value and the other pairs of that name are removed; without such a pair
    a new one is appended. *)
Definition params_remove (name : string) (p : list (string * string))
  : list (string * string) :=
  filter (fun nv => negb (String.eqb (fst nv) name)) p.

Fixpoint params_set (name value : string) (p : list (string * string))
  : list (string * string) :=
  match p with
  | [] => [(name, value)]
  | (n, v) :: p' =>
      if String.eqb n name then (name, value) :: params_remove name p'
      else (n, v) :: params_set name value p'
  end.

Definition hex_digit_upper (d : nat) : ascii :=
  if (d <? 10)%nat then ascii_of_nat (48 + d) else ascii_of_nat (55 + d).

Definition percent_byte (b : nat) : string :=
  String "%" (String (hex_digit_upper (b / 16))
                (String (hex_digit_upper (b mod 16)) "")).

(** The bytes that the [application/x-www-form-urlencoded] serializer
    leaves as they are: the ASCII letters and digits and [*-._]. *)
Definition is_url_plain (b : nat) : bool :=
  ((48 <=? b) && (b <=? 57) || (65 <=? b) && (b <=? 90) || (97 <=? b) && (b <=? 122)
   || (b =? 42) || (b =? 45) || (b =? 46) || (b =? 95))%nat.

Definition urlencode_byte (b : nat) : string :=
  if (b =? 32)%nat then "+"
  else if is_url_plain b then String (ascii_of_nat b) ""
  else percent_byte b.

(** UTF-8 of a character, read as the code point of the same number. *)
Definition utf8_bytes (c : ascii) : list nat :=
  let n := nat_of_ascii c in
  if (n <? 128)%nat then [n] else [192 + n / 64; 128 + n mod 64]%nat.

Definition urlencode_char (c : ascii) : string :=
  String.concat "" (map urlencode_byte (utf8_bytes c)).

Fixpoint urlencode (s : string) : string :=
  match s with
  | EmptyString => ""
  | String c s' => urlencode_char c ++ urlencode s'
  end.

Definition params_pair (nv : string * string) : string :=
  urlencode (fst nv) ++ "=" ++ urlencode (snd nv).

(** [URLSearchParams.prototype.toString] *)
Definition params_toString (p : list (string * string)) : string :=
  String.concat "&" (map params_pair p).

(** [v === undefined || v === null || v === ''] *)
Definition qs_skipped (v : jsval) : bool :=
  match v with
  | VUndefined | VNull | VStr EmptyString => true
  | _ => false
  end.

(** The parameters that [qs] collects. *)
Definition qs_params (obj : jsval) : completion (list (string * string)) :=
  es <- Object_entries obj ;;
  forEachM (fun kv p =>
              if qs_skipped (snd kv) then Normal p
              else s <- ToString (snd kv) ;; Normal (params_set (fst kv) s p))
    es [].

Definition qs (obj : jsval) : completion string :=
  p <- qs_params obj ;;
  Normal (params_toString p).

(** Reading a query string back, as far as the proofs need it: the bytes
    behind the [+] and [%XX] notation, the characters behind the bytes, and
    the pieces between the [&] and around the first [=]. *)
Definition hex_value (c : ascii) : option nat :=
  let n := nat_of_ascii c in
  if ((48 <=? n) && (n <=? 57))%nat then Some (n - 48)%nat
  else if ((65 <=? n) && (n <=? 70))%nat then Some (n - 55)%nat
  else None.

Fixpoint url_bytes (s : string) : list nat :=
  match s with
  | EmptyString => []
  | String c r =>
      if Ascii.eqb c "+" then 32%nat :: url_bytes r
      else if Ascii.eqb c "%" then
        match r with
        | String h1 (String h2 r') =>
            match hex_value h1, hex_value h2 with
            | Some a, Some b => (16 * a + b)%nat :: url_bytes r'
            | _, _ => nat_of_ascii c :: url_bytes r
            end
        | _ => nat_of_ascii c :: url_bytes r
        end
      else nat_of_ascii c :: url_bytes r
  end.

Fixpoint utf8_chars (bs : list nat) : string :=
  match bs with
  | [] => ""
  | b :: bs' =>
      if (b <? 192)%nat then String (ascii_of_nat b) (utf8_chars bs')
      else
        match bs' with
        | b2 :: bs'' =>
            String (ascii_of_nat ((b - 192) * 64 + (b2 - 128))) (utf8_chars bs'')
        | [] => String (ascii_of_nat b) ""
        end
  end.

Definition urldecode (s : string) : string := utf8_chars (url_bytes s).

Fixpoint cut_at (sep : ascii) (s : string) : string * string :=
  match s with
  | EmptyString => ("", "")
  | String c r =>
      if Ascii.eqb c sep then ("", r)
      else let (a, b) := cut_at sep r in (String c a, b)
  end.

Fixpoint split_at (sep : ascii) (s : string) : list string :=
  match s with
  | EmptyString => [""]
  | String c r =>
      if Ascii.eqb c sep then "" :: split_at sep r
      else
        match split_at sep r with
        | t :: ts => String c t :: ts
        | [] => [String c ""]
        end
  end.

Definition params_read (s : string) : list (string * string) :=
  match s with
  | EmptyString => []
  | _ => map (fun piece => let (n, v) := cut_at "=" piece in (urldecode n, urldecode v))
           (split_at "&" s)
  end.

Definition url_safe (c : ascii) : bool :=
  let n := nat_of_ascii c in
  is_url_plain n || (n =? 43)%nat || (n =? 37)%nat.

(* ================================================================== *)
(** ** [api.ts]: the cache of requests *)

(** The module state of [api.ts] and the network: [cache] maps a key to the
    promise stored for it, [requests] lists the calls of [fetch] with their
    url and abort signal.  A promise is named by the position of its call of
    [fetch]; signals are named by numbers. *)
Record net := { cache : list (string * nat); requests : list (string * option nat) }.

Definition no_requests : net := {| cache := []; requests := [] |}.

Fixpoint cache_get (key : string) (c : list (string * nat)) : option nat :=
  match c with
  | [] => None
  | (k, req) :: c' => if String.eqb k key then Some req else cache_get key c'
  end.

Fixpoint cache_set (key : string) (req : nat) (c : list (string * nat))
  : list (string * nat) :=
  match c with
  | [] => [(key, req)]
  | (k, r) :: c' =>
      if String.eqb k key then (key, req) :: c' else (k, r) :: cache_set key req c'
  end.

Definition request_url (key : string) : string :=
  if truthy_string key then BASE ++ "?" ++ key else BASE.

Definition fetchDevelopment (args : jsval) (signal : option nat) (w : net)
  : completion (nat * net) :=
  key <- qs args ;;
  match cache_get key (cache w) with
  | Some req => Normal (req, w)
  | None =>
      let req := List.length (requests w) in
      Normal (req, {| cache := cache_set key req (cache w);
                      requests := requests w ++ [(request_url key, signal)] |})
  end.

(** The states that calls of [fetchDevelopment] lead to. *)
Inductive calls : net -> net -> Prop :=
| calls_none : forall w, calls w w
| calls_more : forall w w1 w2 args signal req,
    calls w w1 ->
    fetchDevelopment args signal w1 = Normal (req, w2) ->
    calls w w2.

Fixpoint string_bytes (s : string) : list nat :=
  match s with
  | EmptyString => []
  | String c r => utf8_bytes c ++ string_bytes r
  end.

Definition differs_from (sep c : ascii) : bool := negb (Ascii.eqb c sep).

Definition qs_kept (es : list (string * jsval)) : list (string * jsval) :=
  filter (fun kv => negb (qs_skipped (snd kv))) es.

(* ================================================================== *)
(** ** [api.ts]: responses and error messages *)

(** What a promise rejects with or a [catch] receives: a [DOMException], an
    [Error] of another kind, or a value that is not an [Error]. *)
Inductive thrown :=
| ThrownDOMException (name message : string)
| ThrownError (message : string)
| ThrownValue (v : jsval).

Inductive settled (A : Type) : Type :=
| Resolved (a : A)
| Rejected (e : thrown).
Arguments Resolved {A} a.
Arguments Rejected {A} e.

(** A response, with the outcome of its [json()]. *)
Record Response := { ok : bool; status : float; statusText : string;
                     json : settled jsval }.

(** [`HTTP ${r.status} ${r.statusText}`] *)
Definition http_error_message (r : Response) : string :=
  "HTTP " ++ Number_toString (status r) ++ " " ++ statusText r.

(** The [then] callback of [fetchDevelopment]; the [catch] callback throws
    what it receives. *)
Definition handle_response (r : Response) : settled jsval :=
  if negb (ok r) then Rejected (ThrownError (http_error_message r))
  else
    match json r with
    | Resolved j =>
        Resolved (match j with
                  | VNull | VUndefined => VObj []      (* [json ?? {}] *)
                  | _ => j
                  end)
    | Rejected e => Rejected e
    end.

(** [s.includes(sub)] *)
Fixpoint includes (s sub : string) : bool :=
  String.prefix sub s
  || match s with
     | EmptyString => false
     | String _ s' => includes s' sub
     end.

Definition dev_mode_hint : string :=
  "API endpoint not available in development mode. Try the "
    ++ String (ascii_of_nat 34) "Demo"
    ++ String (ascii_of_nat 34) " button instead.".

Definition error_text (message : string) : string :=
  if includes message "Unexpected token" && includes message "<!DOCTYPE"
  then dev_mode_hint
  else message.

(** [prettyError]; a [DOMException] is an [Error] too. *)
Definition prettyError (e : thrown) : string :=
  match e with
  | ThrownDOMException name message =>
      if String.eqb name "AbortError" then "Request cancelled."
      else error_text message
  | ThrownError message => error_text message
  | ThrownValue _ => "Unexpected error."
  end.

(* ================================================================== *)
(** ** [App.tsx]: the arguments of a search *)

(** The white space that [trim] removes, among the 8-bit characters. *)
Definition is_js_space (c : ascii) : bool :=
  let n := nat_of_ascii c in
  ((9 <=? n) && (n <=? 13) || (n =? 32) || (n =? 160))%nat.

Fixpoint trimStart (s : string) : string :=
  match s with
  | EmptyString => ""
  | String c r => if is_js_space c then trimStart r else s
  end.

Fixpoint trimEnd (s : string) : string :=
  match s with
  | EmptyString => ""
  | String c r =>
      match trimEnd r with
      | EmptyString => if is_js_space c then "" else String c ""
      | r' => String c r'
      end
  end.

Definition trim (s : string) : string := trimEnd (trimStart s).

Section Search.
(** [Number(s)] for the text of a number input is a parameter. *)
Variable Number_ : string -> float.

Definition toArgs (q lat lng : string) : jsval :=
  let args := empty_object in
  let args := if truthy_string (trim q) then js_set args "q" (VStr (trim q)) else args in
  let args := if negb (String.eqb lat "") then js_set args "lat" (VNum (Number_ lat)) else args in
  let args := if negb (String.eqb lng "") then js_set args "lng" (VNum (Number_ lng)) else args in
  VObj (props args).
End Search.

(** The query string of a search, piece by piece. *)
Definition search_pieces (Number_ : string -> float) (q lat lng : string)
  : list string :=
  (if truthy_string (trim q) then ["q=" ++ urlencode (trim q)]%string else [])
    ++ (if String.eqb lat "" then []
        else ["lat=" ++ urlencode (Number_toString (Number_ lat))]%string)
    ++ (if String.eqb lng "" then []
        else ["lng=" ++ urlencode (Number_toString (Number_ lng))]%string).

Definition cache_consistent (w : net) : Prop :=
  List.length (requests w) = List.length (cache w)
  /\ NoDup (map fst (cache w))
  /\ forall key req,
       cache_get key (cache w) = Some req ->
       exists signal, nth_error (requests w) req = Some (request_url key, signal).

(* ================================================================== *)
(** ** The call stack *)




Section DisplayStack.
Variable Intl_NumberFormat_format : float -> string.
Variable stack : nat.



End DisplayStack.







(** The sections that one container field contributes. *)
Definition field_sections (basePath : string) (kv : string * jsval)
    (sub : list Section_) : Prop :=
  if Array_isArray (snd kv) then
    sub = [ {| title := fst kv; path := join_path basePath (fst kv);
               rows := array_rows_from 0 (elements (snd kv)) |} ]
  else collectSections (snd kv) (join_path basePath (fst kv)) = Normal sub.

Definition container_fields (es : list (string * jsval)) : list (string * jsval) :=
  filter (fun kv => is_container (snd kv)) es.

Definition is_ascii (c : ascii) : bool := (nat_of_ascii c <? 128)%nat.



(* ================================================================== *)
(** ** Properties: the demo payload *)

(** C1. On the demo payload the first three summary cards are those of the
    numeric fields [lot.areaSqm] (1450), [council.devAppsLast12m] (712) and
    [zoning.maxHeightMeters] (235), in this order of descending value, each
    labelled by [prettifyKey] and valued by [formatNumber]. *)
Theorem demo_summary_top3 :
  forall fmt : float -> string,
  exists cards,
    summaryCards fmt demo = Normal cards
    /\ firstn 3 cards =
         map (fun kv => {| label := prettifyKey (fst kv);
                           value := formatNumber fmt (snd kv);
                           hint := None |})
           [ ("lot.areaSqm", 1450%float);
             ("council.devAppsLast12m", 712%float);
             ("zoning.maxHeightMeters", 235%float) ]
    /\ firstn 3 cards =
         [ {| label := "Lot Area Sqm"; value := fmt 1450%float; hint := None |};
           {| label := "Council Dev Apps Last12m"; value := "712"; hint := None |};
           {| label := "Zoning Max Height Meters"; value := "235"; hint := None |} ].
Proof.
  intros fmt. eexists. split; [ vm_compute; reflexivity | ].
  split; vm_compute; reflexivity.
Qed.

(** C2. On the demo payload [collectSections] returns, in this order, the
    sections Overview (row address), zoning (4 rows), lot (4 rows), overlays
    (rows #1 and #2), nearby (4 rows) and council (3 rows), with these
    titles, paths and row keys. *)
Theorem demo_sections :
  exists secs,
    collectSections demo "" = Normal secs
    /\ map (fun s => (title s, path s, map Row.k (rows s))) secs =
         [ ("Overview", "", ["address"]);
           ("zoning", "zoning", ["code"; "name"; "floorSpaceRatio"; "maxHeightMeters"]);
           ("lot", "lot", ["areaSqm"; "frontageM"; "depthM"; "corner"]);
           ("overlays", "overlays", ["#1"; "#2"]);
           ("nearby", "nearby",
             ["schoolsWithin1km"; "trainStationsWithin1km"; "walkScore"; "transitScore"]);
           ("council", "council", ["name"; "devAppsLast12m"; "medianProcessingDays"]) ]
    /\ map (fun s => List.length (rows s)) secs = [1; 4; 4; 2; 4; 3]%nat
    /\ map (fun s => map Row.v (rows s)) secs =
         map (fun v => match v with
                       | VObj es => map snd es
                       | VArr xs => xs
                       | _ => [v]
                       end) (map snd (match demo with VObj es => es | _ => [] end)).
Proof.
  eexists. split; [ vm_compute; reflexivity | ].
  repeat split; vm_compute; reflexivity.
Qed.

(* ================================================================== *)
(** ** Properties: the platform functions on sample inputs *)

(** [String(n)] on values whose JavaScript rendering is well known. *)
Example Number_toString_samples :
  map Number_toString
    [ 0; -0; 42; -42; 0.1; 0.1 + 0.2; 28.4; 1e21; 1e-7; 0.000001;
      123456789012345680000; 5e-324; 1.7976931348623157e308;
      9007199254740993; nan; infinity; neg_infinity ]%float
  = [ "0"; "0"; "42"; "-42"; "0.1"; "0.30000000000000004"; "28.4"; "1e+21";
      "1e-7"; "0.000001"; "123456789012345680000"; "5e-324";
      "1.7976931348623157e+308"; "9007199254740992"; "NaN"; "Infinity";
      "-Infinity" ].
Proof. vm_compute. reflexivity. Qed.

(** Array indices are enumerated first, in numeric order; the other keys
    follow in the order of their creation; an assignment to an existing key
    keeps its place. *)
Example js_set_order :
  map fst (entries_of (fold_left assign
                         [ ("b", VNull); ("10", VNull); ("a", VNull);
                           ("2", VNull); ("01", VNull); ("b", VBool true) ]
                         empty_object))
  = [ "2"; "10"; "b"; "a"; "01" ].
Proof. vm_compute. reflexivity. Qed.

(** An assignment to [__proto__] creates no property as long as the
    accessor of [Object.prototype] is inherited. *)
Example js_set_proto :
  entries_of (js_set empty_object "__proto__" (VNum 5)) = []
  /\ entries_of (js_set empty_object "__proto__" (VArr [VNum 1])) = []
  /\ entries_of (js_set (js_set empty_object "__proto__" VNull) "__proto__" (VNum 5))
     = [("__proto__", VNum 5)].
Proof. repeat split. Qed.

Lemma sort_insert_perm :
  forall (A : Type) (cmp : A -> A -> float) (a : A) (l : list A),
    Permutation (sort_insert cmp a l) (a :: l).
Proof.
  intros A cmp a l. induction l as [| b l IH]; simpl.
  - apply Permutation_refl.
  - destruct (0 <? cmp a b)%float; [ | apply Permutation_refl ].
    eapply perm_trans; [ apply perm_skip; exact IH | apply perm_swap ].
Qed.

(** Sorting rearranges the entries, it neither drops nor invents one. *)
Lemma Array_sort_perm :
  forall (A : Type) (cmp : A -> A -> float) (l : list A),
    Permutation (Array_sort cmp l) l.
Proof.
  intros A cmp l. induction l as [| a l IH]; simpl.
  - apply Permutation_refl.
  - eapply perm_trans; [ apply sort_insert_perm | apply perm_skip; exact IH ].
Qed.

(* ================================================================== *)
(** ** Properties: the classifier *)

(** C6. [classifyValue] is a total function of the value: a number (NaN and
    the infinities too) is numeric, a boolean is boolean, a non-empty string
    of fewer than 120 characters is short text, and everything else (the
    empty string, a string of 120 characters or more, an array, an object,
    [null], [undefined]) is structured. *)
Theorem classifyValue_total :
  (forall n, classifyValue (VNum n) = Num)
  /\ classifyValue (VNum nan) = Num
  /\ classifyValue (VNum infinity) = Num
  /\ classifyValue (VNum neg_infinity) = Num
  /\ (forall b, classifyValue (VBool b) = Bool)
  /\ (forall s, (0 < String.length s < 120)%nat -> classifyValue (VStr s) = Short)
  /\ (forall s, (String.length s = 0 \/ 120 <= String.length s)%nat ->
        classifyValue (VStr s) = Json)
  /\ classifyValue (VStr "") = Json
  /\ (forall xs, classifyValue (VArr xs) = Json)
  /\ (forall es, classifyValue (VObj es) = Json)
  /\ classifyValue VNull = Json
  /\ classifyValue VUndefined = Json.
Proof.
  repeat split; try reflexivity.
  - intros s [Hpos Hlt]. unfold classifyValue; simpl.
    apply Nat.ltb_lt in Hpos. apply Nat.ltb_lt in Hlt.
    rewrite Hpos, Hlt. reflexivity.
  - intros s H. unfold classifyValue; simpl.
    destruct H as [H0 | H120].
    + rewrite H0. reflexivity.
    + assert (Hge : (String.length s <? 120)%nat = false)
        by (apply Nat.ltb_ge; exact H120).
      rewrite Hge, andb_false_r. reflexivity.
Qed.

Lemma classifyValue_total_witness :
  classifyValue (VStr "B8") = Short
  /\ classifyValue (VStr (repeat_char "x" 120)) = Json.
Proof.
  destruct classifyValue_total as (_ & _ & _ & _ & _ & Hshort & Hlong & _).
  split.
  - apply Hshort. simpl. lia.
  - apply Hlong. right. apply Nat.leb_le. vm_compute. reflexivity.
Defined.

(* ================================================================== *)
(** ** Properties: the key prettifier *)

Lemma upper_not_lower : forall c, is_upper c = true -> is_lower c = false.
Proof.
  intros c. unfold is_upper, is_lower.
  generalize (nat_of_ascii c); intros n H.
  apply andb_true_iff in H. destruct H as [_ H]. apply Nat.leb_le in H.
  apply andb_false_iff. left. apply Nat.leb_gt. lia.
Qed.

Lemma camel_spaces_upper :
  forall b t, is_upper b = true -> camel_spaces (String b t) = String b (camel_spaces t).
Proof.
  intros b t Hb. simpl. rewrite (upper_not_lower _ Hb). simpl.
  destruct t; reflexivity.
Qed.

(** The left-to-right scan of the regular expression finds every boundary:
    two matches never overlap, since a match ends on an uppercase letter. *)
Lemma camel_replace_spaces_aux :
  forall x,
    camel_replace x = camel_spaces x
    /\ forall a, camel_replace (String a x) = camel_spaces (String a x).
Proof.
  induction x as [| b t [IHt IHbt]].
  - split; [ reflexivity | intro a; reflexivity ].
  - split; [ apply IHbt | ].
    intro a.
    change (camel_replace (String a (String b t)))
      with (if is_lower a && is_upper b
            then String a (String " " (String b (camel_replace t)))
            else String a (camel_replace (String b t))).
    change (camel_spaces (String a (String b t)))
      with (String a (if is_lower a && is_upper b
                      then String " " (camel_spaces (String b t))
                      else camel_spaces (String b t))).
    destruct (is_lower a && is_upper b) eqn:E.
    + apply andb_true_iff in E. destruct E as [_ Hb].
      rewrite (camel_spaces_upper b t Hb), IHt. reflexivity.
    + rewrite IHbt. reflexivity.
Qed.

Lemma camel_replace_spaces : forall x, camel_replace x = camel_spaces x.
Proof. intro x. apply camel_replace_spaces_aux. Qed.

Lemma split_key_nonempty : forall k, split_key k <> [].
Proof.
  destruct k as [| c k]; simpl; [ discriminate | ].
  destruct (is_separator c); [ discriminate | ].
  destruct (split_key k); discriminate.
Qed.

Lemma split_key_separator_free :
  forall k,
    Forall (fun t => string_forall (fun c => negb (is_separator c)) t = true)
      (split_key k).
Proof.
  induction k as [| c k IH]; simpl.
  - constructor; [ reflexivity | constructor ].
  - destruct (is_separator c) eqn:E.
    + constructor; [ reflexivity | exact IH ].
    + destruct (split_key k) as [| t ts].
      * constructor; [ simpl; rewrite E; reflexivity | constructor ].
      * inversion IH as [| ? ? Ht Hts]; subst.
        constructor; [ simpl; rewrite E; exact Ht | exact Hts ].
Qed.



(* ================================================================== *)
(** ** Properties: the number formatter *)

Lemma string_forall_app :
  forall p a b,
    string_forall p (a ++ b) = string_forall p a && string_forall p b.
Proof.
  intros p a b. induction a as [| c a IH]; simpl; [ reflexivity | ].
  rewrite IH. apply andb_assoc.
Qed.

Lemma string_forall_substring :
  forall p s i j,
    string_forall p s = true -> string_forall p (substring i j s) = true.
Proof.
  intros p s. induction s as [| c s IH]; intros i j H.
  - destruct i, j; reflexivity.
  - simpl in H. apply andb_true_iff in H. destruct H as [Hc Hs].
    destruct i as [| i]; simpl.
    + destruct j as [| j]; simpl; [ reflexivity | ].
      rewrite Hc. simpl. apply IH. exact Hs.
    + apply IH. exact Hs.
Qed.

Lemma string_forall_repeat :
  forall p c n, p c = true -> string_forall p (repeat_char c n) = true.
Proof.
  intros p c n Hc. induction n as [| n IH]; simpl; [ reflexivity | ].
  rewrite Hc, IH. reflexivity.
Qed.

Lemma digit_char_plain : forall z, plain_char (digit_char (z mod 10)) = true.
Proof.
  intro z. unfold digit_char.
  assert (H : (0 <= z mod 10 < 10)%Z) by (apply Z.mod_pos_bound; lia).
  assert (Hn : (Z.to_nat (z mod 10) < 10)%nat) by lia.
  generalize dependent (Z.to_nat (z mod 10)). intros r Hr.
  do 10 (destruct r as [| r]; [ reflexivity | ]). lia.
Qed.

Lemma digits_of_plain :
  forall fuel z acc,
    string_forall plain_char acc = true ->
    string_forall plain_char (digits_of fuel z acc) = true.
Proof.
  induction fuel as [| fuel IH]; intros z acc Hacc; simpl; [ exact Hacc | ].
  assert (Hstep : string_forall plain_char (String (digit_char (z mod 10)) acc) = true).
  { cbn [string_forall]. rewrite digit_char_plain, Hacc. reflexivity. }
  destruct (z <? 10)%Z; [ exact Hstep | apply IH; exact Hstep ].
Qed.

Lemma string_of_Z_plain : forall z, string_forall plain_char (string_of_Z z) = true.
Proof.
  intro z. unfold string_of_Z. destruct (z <? 0)%Z.
  - rewrite string_forall_app. apply andb_true_intro. split.
    + reflexivity.
    + apply digits_of_plain. reflexivity.
  - apply digits_of_plain. reflexivity.
Qed.

Lemma layout_plain :
  forall s n k, string_forall plain_char (NumberToString.layout s n k) = true.
Proof.
  intros s n k. unfold NumberToString.layout, NumberToString.exponent_part.
  pose proof (string_of_Z_plain s) as Hs.
  repeat match goal with
         | |- context [if ?b then _ else _] => destruct b
         end;
    repeat rewrite string_forall_app;
    repeat (apply andb_true_intro; split);
    first [ exact Hs
          | apply string_of_Z_plain
          | apply string_forall_substring; exact Hs
          | apply string_forall_repeat; reflexivity
          | reflexivity ].
Qed.

(** [String(n)] never contains a grouping comma. *)
Lemma Number_toString_plain :
  forall n, string_forall plain_char (Number_toString n) = true.
Proof.
  intro n. unfold Number_toString, NumberToString.toString.
  destruct (Prim2SF n) as [sg | sg | | sg m e]; try reflexivity.
  - destruct sg; reflexivity.
  - assert (H : string_forall plain_char (NumberToString.positive_finite m e) = true).
    { unfold NumberToString.positive_finite.
      destruct (NumberToString.shortest _ _ _ _) as [[s n'] k].
      apply layout_plain. }
    destruct sg; [ | exact H ].
    rewrite string_forall_app. apply andb_true_intro. split; [ reflexivity | exact H ].
Qed.

(** C8. [formatNumber] returns the literal [String(n)] of a number that is
    not finite ([NaN] gives [NaN]), the result of the locale's formatter for
    a finite number of absolute value at least 1000 (as for 1234), and the
    plain [String(n)], which has no grouping comma, otherwise (42 gives
    [42]). *)
Theorem formatNumber_cases :
  forall fmt : float -> string,
    (forall n, is_finite n = false -> formatNumber fmt n = Number_toString n)
    /\ formatNumber fmt nan = "NaN"
    /\ formatNumber fmt infinity = "Infinity"
    /\ formatNumber fmt neg_infinity = "-Infinity"
    /\ (forall n, is_finite n = true -> (1000 <=? abs n)%float = true ->
          formatNumber fmt n = fmt n)
    /\ formatNumber fmt 1234%float = fmt 1234%float
    /\ (forall n, is_finite n = true -> (1000 <=? abs n)%float = false ->
          formatNumber fmt n = Number_toString n
          /\ string_forall plain_char (formatNumber fmt n) = true)
    /\ formatNumber fmt 42%float = "42".
Proof.
  intro fmt.
  assert (Hsmall : forall n, is_finite n = true -> (1000 <=? abs n)%float = false ->
                             formatNumber fmt n = Number_toString n).
  { intros n H1 H2. unfold formatNumber. rewrite H1, H2. reflexivity. }
  split; [ | split; [ | split; [ | split; [ | split; [ | split; [ | split ] ] ] ] ] ].
  - intros n H. unfold formatNumber. rewrite H. reflexivity.
  - vm_compute. reflexivity.
  - vm_compute. reflexivity.
  - vm_compute. reflexivity.
  - intros n H1 H2. unfold formatNumber. rewrite H1, H2. reflexivity.
  - reflexivity.
  - intros n H1 H2. split; [ apply Hsmall; assumption | ].
    rewrite (Hsmall n H1 H2). apply Number_toString_plain.
  - vm_compute. reflexivity.
Qed.

Lemma formatNumber_cases_witness :
  formatNumber en_US_integer (infinity - infinity)%float = "NaN"
  /\ formatNumber en_US_integer 1234%float = "1,234"
  /\ formatNumber en_US_integer 999.5%float = "999.5".
Proof.
  destruct (formatNumber_cases en_US_integer)
    as (Hnf & _ & _ & _ & Hbig & _ & Hsmall & _).
  split; [ | split ].
  - rewrite (Hnf (infinity - infinity)%float); reflexivity.
  - rewrite (Hbig 1234%float); reflexivity.
  - destruct (Hsmall 999.5%float) as [E _]; [ reflexivity | reflexivity | ].
    rewrite E. reflexivity.
Defined.

(* ================================================================== *)
(** ** Properties: the flattener as a sequence of assignments *)


Lemma is_plain_object_false :
  forall v, is_plain_object v = false -> not_plain_object v.
Proof.
  intros v H. destruct v; simpl; try exact I.
  discriminate H.
Qed.

Lemma forEachM_pure :
  forall (A St : Type) (g : St -> A -> St) (l : list A) (s : St),
    forEachM (fun a s => Normal (g s a)) l s = Normal (fold_left g l s).
Proof.
  intros A St g l. induction l as [| a l IH]; intro s; simpl; [ reflexivity | ].
  apply IH.
Qed.

Lemma flatten_falsy :
  forall obj prefix out, truthy obj = false -> flatten obj prefix out = Normal out.
Proof.
  intros obj prefix out H. destruct obj; simpl in *; rewrite ?H; try reflexivity;
    discriminate H.
Qed.

Lemma flat_writes_falsy :
  forall obj prefix, truthy obj = false -> flat_writes obj prefix = [].
Proof.
  intros obj prefix H. destruct obj; simpl in *; rewrite ?H; try reflexivity;
    discriminate H.
Qed.

Lemma flatten_VObj :
  forall es prefix out,
    flatten (VObj es) prefix out
    = forEachM (fun kv out => flatten_entry flatten prefix (fst kv) (snd kv) out) es out.
Proof. reflexivity. Qed.

Lemma flatten_VArr :
  forall xs prefix out,
    flatten (VArr xs) prefix out
    = forEachiM (fun i v out => flatten_entry flatten prefix (string_of_nat i) v out)
        0 xs out.
Proof. reflexivity. Qed.

Lemma flat_writes_VObj :
  forall es prefix,
    flat_writes (VObj es) prefix
    = flat_map (fun kv => write_entry flat_writes prefix (fst kv) (snd kv)) es.
Proof. reflexivity. Qed.

Lemma flat_writes_VArr :
  forall xs prefix,
    flat_writes (VArr xs) prefix
    = flat_mapi (fun i v => write_entry flat_writes prefix (string_of_nat i) v) 0 xs.
Proof. reflexivity. Qed.

Lemma flatten_entry_fold :
  forall prefix k v out,
    flatten_is_fold v ->
    flatten_entry flatten prefix k v out
    = Normal (fold_left assign (write_entry flat_writes prefix k v) out).
Proof.
  intros prefix k v out IH. unfold flatten_entry, write_entry.
  destruct (is_plain_object v); [ apply IH | reflexivity ].
Qed.

(** [flatten], with room enough on the call stack, does not throw: it
    performs the assignments [flat_writes], in order, on [out]. *)
Lemma flatten_writes : forall obj, flatten_is_fold obj.
Proof.
  induction obj as [ | | b | n | s | xs IH | es IH ] using jsval_ind';
    intros prefix out.
  - reflexivity.
  - reflexivity.
  - destruct b; reflexivity.
  - destruct (truthy (VNum n)) eqn:E.
    + simpl in E. simpl. rewrite E. reflexivity.
    + rewrite flatten_falsy, flat_writes_falsy by exact E. reflexivity.
  - destruct s as [| c s]; [ reflexivity | ].
    change (flatten (VStr (String c s)) prefix out)
      with (forEachM (fun kv out => Normal (js_set out (join_path prefix (fst kv)) (snd kv)))
              (indexed_from 0 (chars (String c s))) out).
    change (flat_writes (VStr (String c s)) prefix)
      with (map (fun kv => (join_path prefix (fst kv), snd kv))
              (indexed_from 0 (chars (String c s)))).
    rewrite (forEachM_pure _ _
               (fun out kv => js_set out (join_path prefix (fst kv)) (snd kv))).
    f_equal. generalize (indexed_from 0 (chars (String c s))). intro l.
    revert out. induction l as [| kv l IHl]; intro out; simpl; [ reflexivity | ].
    apply IHl.
  - rewrite flatten_VArr, flat_writes_VArr. generalize 0%nat. revert out.
    induction IH as [| v xs Hv _ IHxs]; intros out i; simpl; [ reflexivity | ].
    rewrite (flatten_entry_fold prefix (string_of_nat i) v out Hv). simpl.
    rewrite fold_left_app. apply IHxs.
  - rewrite flatten_VObj, flat_writes_VObj. revert out.
    induction IH as [| kv es Hv _ IHes]; intro out; simpl; [ reflexivity | ].
    rewrite (flatten_entry_fold prefix (fst kv) (snd kv) out Hv). simpl.
    rewrite fold_left_app. apply IHes.
Qed.


(* ================================================================== *)
(** ** Properties: the sectionizer returns *)

Lemma collectSections_unfold_VObj :
  forall es basePath,
    collectSections (VObj es) basePath
    = (st <- forEachM (fun kv st =>
                         collect_entry collectSections basePath (fst kv) (snd kv) st)
               es ([], []) ;;
       Normal (finish_sections basePath st)).
Proof. reflexivity. Qed.

Lemma collectSections_unfold_VArr :
  forall xs basePath,
    collectSections (VArr xs) basePath
    = (st <- forEachiM (fun i v st =>
                          collect_entry collectSections basePath (string_of_nat i) v st)
               0 xs ([], []) ;;
       Normal (finish_sections basePath st)).
Proof. reflexivity. Qed.

Lemma collect_entry_returns :
  forall basePath k v st,
    collect_returns v ->
    exists st', collect_entry collectSections basePath k v st = Normal st'.
Proof.
  intros basePath k v [sections scalars] IH. unfold collect_entry.
  destruct (truthy v && jstype_eqb (typeof v) TObject); [ | eexists; reflexivity ].
  destruct (Array_isArray v); [ eexists; reflexivity | ].
  destruct (IH (join_path basePath k)) as [sub ->]. eexists; reflexivity.
Qed.

Lemma collectSections_total : forall obj, collect_returns obj.
Proof.
  induction obj as [ | | b | n | s | xs IH | es IH ] using jsval_ind';
    intro basePath.
  - eexists; reflexivity.
  - eexists; reflexivity.
  - destruct b; eexists; reflexivity.
  - simpl. destruct (negb (negb (is_zero n || is_nan n))); eexists; reflexivity.
  - destruct s as [| c s]; [ eexists; reflexivity | ].
    change (collectSections (VStr (String c s)) basePath)
      with (st <- forEachM (fun kv st =>
                              Normal (fst st, snd st ++ [Row.mk (fst kv) (snd kv)]))
                    (indexed_from 0 (chars (String c s))) ([], []) ;;
            Normal (finish_sections basePath st)).
    rewrite (forEachM_pure _ _
               (fun (st : list Section_ * list Row.t) kv =>
                  (fst st, snd st ++ [Row.mk (fst kv) (snd kv)]))).
    eexists; reflexivity.
  - rewrite collectSections_unfold_VArr.
    assert (H : forall i st, exists st',
                 forEachiM (fun i v st =>
                              collect_entry collectSections basePath (string_of_nat i) v st)
                   i xs st = Normal st').
    { induction IH as [| v xs Hv _ IHxs]; intros i st; simpl;
        [ eexists; reflexivity | ].
      destruct (collect_entry_returns basePath (string_of_nat i) v st Hv) as [st1 ->].
      simpl. apply IHxs. }
    destruct (H 0%nat ([], [])) as [st' ->]. eexists; reflexivity.
  - rewrite collectSections_unfold_VObj.
    assert (H : forall st, exists st',
                 forEachM (fun kv st =>
                             collect_entry collectSections basePath (fst kv) (snd kv) st)
                   es st = Normal st').
    { induction IH as [| kv es Hv _ IHes]; intro st; simpl;
        [ eexists; reflexivity | ].
      destruct (collect_entry_returns basePath (fst kv) (snd kv) st Hv) as [st1 ->].
      simpl. apply IHes. }
    destruct (H ([], [])) as [st' ->]. eexists; reflexivity.
Qed.

(* ================================================================== *)
(** ** Properties: the two walks, as written in the source *)

Lemma bind_Normal :
  forall (A B : Type) (a : A) (f : A -> completion B), bind (Normal a) f = f a.
Proof. reflexivity. Qed.






(* ================================================================== *)
(** ** Properties: what the flattener stores *)

Section StoredValues.
Variable Q : string * jsval -> Prop.

Lemma replace_own_Forall :
  forall k v ps, Q (k, v) -> Forall Q ps -> Forall Q (replace_own k v ps).
Proof.
  intros k v ps Hkv H. induction H as [| [k' v'] ps Hx Hps IH]; simpl.
  - constructor.
  - destruct (String.eqb k' k); constructor; assumption.
Qed.

Lemma insert_index_Forall :
  forall i k v ps, Q (k, v) -> Forall Q ps -> Forall Q (insert_index i k v ps).
Proof.
  intros i k v ps Hkv H. induction H as [| [k' v'] ps Hx Hps IH]; simpl.
  - constructor; [ assumption | constructor ].
  - destruct (array_index k') as [j |].
    + destruct (j <? i)%N; repeat (constructor; try assumption).
    + repeat (constructor; try assumption).
Qed.

Lemma define_own_Forall :
  forall k v ps, Q (k, v) -> Forall Q ps -> Forall Q (define_own k v ps).
Proof.
  intros k v ps Hkv H. unfold define_own. destruct (array_index k).
  - apply insert_index_Forall; assumption.
  - apply Forall_app. split; [ assumption | constructor; [ assumption | constructor ] ].
Qed.

Lemma js_set_Forall :
  forall o k v, Q (k, v) -> Forall Q (props o) -> Forall Q (props (js_set o k v)).
Proof.
  intros o k v Hkv H. unfold js_set.
  destruct (has_own k (props o)); simpl.
  - apply replace_own_Forall; assumption.
  - destruct (String.eqb k "__proto__" && proto_setter o).
    + destruct v; simpl; assumption.
    + simpl. apply define_own_Forall; assumption.
Qed.

Lemma fold_assign_Forall :
  forall ws out,
    Forall Q ws -> Forall Q (props out) -> Forall Q (props (fold_left assign ws out)).
Proof.
  intros ws out Hws. revert out.
  induction Hws as [| [k v] ws Hkv _ IH]; intros out Hout; simpl.
  - exact Hout.
  - apply IH. apply js_set_Forall; assumption.
Qed.
End StoredValues.

Lemma write_entry_values :
  forall prefix k v,
    (forall prefix', Forall stores_no_plain_object (flat_writes v prefix')) ->
    Forall stores_no_plain_object (write_entry flat_writes prefix k v).
Proof.
  intros prefix k v IH. unfold write_entry.
  destruct (is_plain_object v) eqn:E; [ apply IH | ].
  constructor; [ | constructor ].
  apply is_plain_object_false. exact E.
Qed.

Lemma flat_writes_values :
  forall obj prefix, Forall stores_no_plain_object (flat_writes obj prefix).
Proof.
  induction obj as [ | | b | n | s | xs IH | es IH ] using jsval_ind';
    intro prefix; try (simpl; constructor).
  - destruct b; constructor.
  - simpl. destruct (negb (negb (is_zero n || is_nan n))); constructor.
  - destruct s as [| c s]; [ constructor | ].
    change (flat_writes (VStr (String c s)) prefix)
      with (map (fun kv => (join_path prefix (fst kv), snd kv))
              (indexed_from 0 (chars (String c s)))).
    unfold chars. generalize 0%nat. generalize (list_ascii_of_string (String c s)).
    intro l. induction l as [| a l IHl]; intro i; simpl; constructor.
    + exact I.
    + apply IHl.
  - rewrite flat_writes_VArr. generalize 0%nat.
    induction IH as [| v xs Hv _ IHxs]; intro i; simpl; [ constructor | ].
    apply Forall_app. split; [ apply write_entry_values; exact Hv | apply IHxs ].
  - rewrite flat_writes_VObj.
    induction IH as [| kv es Hv _ IHes]; simpl; [ constructor | ].
    apply Forall_app. split; [ apply write_entry_values; exact Hv | apply IHes ].
Qed.

(** C5. No entry of [flatten(D)] holds a non-array object: an object that is
    not an array is walked into, never stored, so every stored value is a
    number, a boolean, a string, [null], [undefined] or an array. *)
Theorem flatten_stores_no_plain_object :
  forall D,
  exists flat,
    flatten D "" empty_object = Normal flat
    /\ Forall (fun kv => match snd kv with
                         | VObj _ => False
                         | VUndefined | VNull | VBool _ | VNum _ | VStr _ | VArr _ => True
                         end) (entries_of flat).
Proof.
  intro D. eexists. split; [ apply flatten_writes | ].
  apply (fold_assign_Forall stores_no_plain_object).
  - apply flat_writes_values.
  - constructor.
Qed.

(* ================================================================== *)
(** ** Properties: the keys of the flattened object *)

Lemma has_own_In : forall k ps, has_own k ps = true <-> In k (map fst ps).
Proof.
  intros k ps. unfold has_own. rewrite existsb_exists. split.
  - intros [kv [Hin Heq]]. apply String.eqb_eq in Heq. subst k.
    apply in_map. exact Hin.
  - intro H. apply in_map_iff in H. destruct H as [kv [Heq Hin]].
    exists kv. split; [ exact Hin | ]. apply String.eqb_eq. exact Heq.
Qed.

Lemma replace_own_keys :
  forall k v ps, map fst (replace_own k v ps) = map fst ps.
Proof.
  intros k v ps. induction ps as [| [k' v'] ps IH]; simpl; [ reflexivity | ].
  destruct (String.eqb k' k) eqn:E; simpl.
  - apply String.eqb_eq in E. subst k'. reflexivity.
  - rewrite IH. reflexivity.
Qed.

Lemma insert_index_perm :
  forall i k v ps, Permutation (insert_index i k v ps) ((k, v) :: ps).
Proof.
  intros i k v ps. induction ps as [| [k' v'] ps IH]; simpl.
  - apply Permutation_refl.
  - destruct (array_index k') as [j |]; [ | apply Permutation_refl ].
    destruct (j <? i)%N; [ | apply Permutation_refl ].
    eapply perm_trans; [ apply perm_skip; exact IH | apply perm_swap ].
Qed.

Lemma define_own_perm :
  forall k v ps, Permutation (define_own k v ps) ((k, v) :: ps).
Proof.
  intros k v ps. unfold define_own. destruct (array_index k).
  - apply insert_index_perm.
  - apply Permutation_sym. apply Permutation_cons_append.
Qed.

Lemma js_set_fresh :
  forall o k v,
    has_own k (props o) = false -> k <> "__proto__" ->
    Permutation (props (js_set o k v)) ((k, v) :: props o).
Proof.
  intros o k v Hfresh Hk. unfold js_set. rewrite Hfresh.
  apply String.eqb_neq in Hk. rewrite Hk. simpl. apply define_own_perm.
Qed.

Lemma js_set_keys :
  forall o k v p,
    k <> "__proto__" ->
    In p (map fst (props (js_set o k v))) <-> p = k \/ In p (map fst (props o)).
Proof.
  intros o k v p Hk. destruct (has_own k (props o)) eqn:E.
  - unfold js_set. rewrite E. simpl. rewrite replace_own_keys.
    apply has_own_In in E. split; [ intro H; right; exact H | ].
    intros [-> | H]; assumption.
  - pose proof (js_set_fresh o k v E Hk) as Hperm.
    split.
    + intro H. apply (Permutation_in _ (Permutation_map fst Hperm)) in H.
      simpl in H. destruct H as [H | H]; [ left; symmetry; exact H | right; exact H ].
    + intro H.
      apply (Permutation_in _ (Permutation_sym (Permutation_map fst Hperm))).
      simpl. destruct H as [-> | H]; [ left; reflexivity | right; exact H ].
Qed.

Lemma fold_assign_keys :
  forall ws out p,
    ~ In "__proto__" (map fst ws) ->
    In p (map fst (props (fold_left assign ws out)))
    <-> In p (map fst (props out)) \/ In p (map fst ws).
Proof.
  induction ws as [| [k v] ws IH]; intros out p Hproto; simpl.
  - tauto.
  - simpl in Hproto. rewrite IH by tauto.
    change (assign out (k, v)) with (js_set out k v).
    rewrite js_set_keys by (intro E; apply Hproto; left; exact E).
    split.
    + intros [[-> | H] | H]; auto.
    + intros [H | [<- | H]]; auto.
Qed.

Lemma append_assoc :
  forall a b c : string, ((a ++ b) ++ c = a ++ (b ++ c))%string.
Proof.
  intros a b c. induction a as [| x a IH]; simpl; [ reflexivity | ].
  rewrite IH. reflexivity.
Qed.

Lemma join_path_truthy :
  forall prefix k,
    truthy_string prefix = true -> join_path prefix k = (prefix ++ "." ++ k)%string.
Proof. intros prefix k H. unfold join_path. rewrite H. reflexivity. Qed.

Lemma join_path_root : forall k, join_path "" k = k.
Proof. reflexivity. Qed.

Lemma truthy_append :
  forall a b, truthy_string a = true -> truthy_string (a ++ b)%string = true.
Proof. intros [| c a] b H; [ discriminate H | reflexivity ]. Qed.

Lemma dotted_cons :
  forall k ks, ks <> [] -> dotted (k :: ks) = (k ++ "." ++ dotted ks)%string.
Proof. intros k [| k' ks] H; [ contradiction | reflexivity ]. Qed.

Lemma leaf_paths_VObj :
  forall es,
    leaf_paths (VObj es)
    = flat_map (fun kv =>
                  match snd kv with
                  | VObj _ => map (cons (fst kv)) (leaf_paths (snd kv))
                  | _ => [[fst kv]]
                  end) es.
Proof. reflexivity. Qed.

Lemma leaf_paths_nonempty : forall D, Forall (fun ks => ks <> []) (leaf_paths D).
Proof.
  destruct D as [ | | b | n | s | xs | es ]; try constructor.
  rewrite leaf_paths_VObj. apply Forall_flat_map. apply Forall_forall.
  intros [k v] _. simpl. destruct v; try (constructor; [ discriminate | constructor ]).
  apply Forall_forall. intros ks H. apply in_map_iff in H.
  destruct H as [ks' [<- _]]. discriminate.
Qed.

Lemma write_entry_keys_prefix :
  forall prefix k v,
    truthy_string prefix = true ->
    keys_under_prefix v ->
    map fst (write_entry flat_writes prefix k v)
    = map (fun ks => (prefix ++ "." ++ dotted ks)%string)
        (match v with
         | VObj _ => map (cons k) (leaf_paths v)
         | _ => [[k]]
         end).
Proof.
  intros prefix k v Hp IH. unfold write_entry.
  rewrite (join_path_truthy prefix k Hp).
  destruct v as [ | | b | n | s | xs | es ];
    try (unfold is_plain_object; simpl; rewrite ?andb_false_r; reflexivity).
  change (is_plain_object (VObj es)) with true. cbv iota.
  rewrite (IH es eq_refl) by (apply truthy_append; exact Hp).
  rewrite map_map. apply map_ext_in. intros ks Hks.
  pose proof (leaf_paths_nonempty (VObj es)) as Hne.
  rewrite Forall_forall in Hne. specialize (Hne ks Hks).
  rewrite (dotted_cons k ks Hne). rewrite append_assoc. reflexivity.
Qed.

Lemma flat_writes_keys_prefix : forall v, keys_under_prefix v.
Proof.
  induction v as [ | | b | n | s | xs IH | es IH ] using jsval_ind';
    intros es' E; try discriminate E.
  clear es' E. intros prefix Hp.
  rewrite flat_writes_VObj, leaf_paths_VObj.
  induction IH as [| kv es Hv _ IHes]; simpl; [ reflexivity | ].
  rewrite !map_app, IHes. f_equal.
  apply write_entry_keys_prefix; assumption.
Qed.

Lemma write_entry_keys_root :
  forall k v,
    (k = "" -> not_plain_object v) ->
    map fst (write_entry flat_writes "" k v)
    = map dotted (match v with
                  | VObj _ => map (cons k) (leaf_paths v)
                  | _ => [[k]]
                  end).
Proof.
  intros k v Hk. unfold write_entry. rewrite join_path_root.
  destruct v as [ | | b | n | s | xs | es ];
    try (unfold is_plain_object; simpl; rewrite ?andb_false_r; reflexivity).
  change (is_plain_object (VObj es)) with true. cbv iota.
  assert (Hp : truthy_string k = true).
  { destruct k; [ exfalso; apply Hk; reflexivity | reflexivity ]. }
  rewrite (flat_writes_keys_prefix (VObj es) es eq_refl k Hp).
  rewrite map_map. apply map_ext_in. intros ks Hks.
  pose proof (leaf_paths_nonempty (VObj es)) as Hne.
  rewrite Forall_forall in Hne. specialize (Hne ks Hks).
  rewrite (dotted_cons k ks Hne). reflexivity.
Qed.

Lemma flat_writes_keys_root :
  forall es,
    (forall v, In ("", v) es -> not_plain_object v) ->
    map fst (flat_writes (VObj es) "") = map dotted (leaf_paths (VObj es)).
Proof.
  intros es Hroot. rewrite flat_writes_VObj, leaf_paths_VObj.
  induction es as [| [k v] es IH]; simpl; [ reflexivity | ].
  rewrite !map_app, IH.
  - f_equal. apply write_entry_keys_root. intros ->. apply Hroot. left. reflexivity.
  - intros v' H. apply Hroot. right. exact H.
Qed.

(** C4, as the code has it.  For every document whose top-level empty key,
    if present, does not hold a non-array object, and none of whose leaves
    has the dotted path [__proto__], the paths of [flatten(D)] are exactly
    the dotted paths of the leaves of [D] reached without crossing an array,
    an array being a leaf. *)
Theorem flatten_paths_leaf_paths :
  forall es,
    (forall v, In ("", v) es -> not_plain_object v) ->
    ~ In "__proto__" (map dotted (leaf_paths (VObj es))) ->
    paths_are_leaf_paths (VObj es).
Proof.
  intros es Hroot Hproto. unfold paths_are_leaf_paths.
  eexists. split; [ apply flatten_writes | ].
  intro p. unfold entries_of.
  rewrite <- (flat_writes_keys_root es Hroot) in *.
  rewrite fold_assign_keys by exact Hproto. simpl. tauto.
Qed.

Lemma flatten_paths_leaf_paths_witness :
  paths_are_leaf_paths demo.
Proof.
  apply flatten_paths_leaf_paths.
  - intros v H. simpl in H.
    repeat (destruct H as [H | H]; [ discriminate H | ]). contradiction.
  - vm_compute. intro H.
    repeat (destruct H as [H | H]; [ discriminate H | ]). contradiction.
Defined.

(** C4, as stated, fails on a document with an empty top-level key that
    holds an object (the leaf at [.a] is stored under [a]) and on a document
    with the top-level key [__proto__] (the assignment stores nothing). *)
Lemma flatten_paths_counterexample :
  ~ paths_are_leaf_paths (VObj [("", VObj [("a", VNum 1)])])
  /\ ~ paths_are_leaf_paths (VObj [("__proto__", VNum 5)]).
Proof.
  split; intros [flat [E H]]; vm_compute in E; injection E as <-.
  - destruct (H "a") as [H1 _]. simpl in H1.
    destruct H1 as [H1 | []]; [ left; reflexivity | discriminate H1 ].
  - destruct (H "__proto__") as [_ H2]. simpl in H2. apply H2. left. reflexivity.
Qed.

(* ================================================================== *)
(** ** Properties: counting rows *)

Lemma fold_assign_perm :
  forall ws out,
    NoDup (map fst ws) ->
    (forall k, In k (map fst ws) -> ~ In k (map fst (props out))) ->
    ~ In "__proto__" (map fst ws) ->
    Permutation (props (fold_left assign ws out)) (props out ++ ws).
Proof.
  induction ws as [| [k v] ws IH]; intros out Hnd Hfresh Hproto; simpl.
  - rewrite app_nil_r. apply Permutation_refl.
  - simpl in Hnd, Hproto. inversion Hnd as [| ? ? Hk Hnd']; subst.
    assert (Hkp : k <> "__proto__") by (intro E; apply Hproto; left; exact E).
    assert (Hown : has_own k (props out) = false).
    { destruct (has_own k (props out)) eqn:E; [ | reflexivity ].
      exfalso. apply (Hfresh k); [ left; reflexivity | ].
      apply has_own_In. exact E. }
    unfold assign at 2. simpl fst; simpl snd.
    eapply perm_trans.
    + apply IH.
      * exact Hnd'.
      * intros k' Hin Hin'. apply (js_set_keys out k v k' Hkp) in Hin'.
        destruct Hin' as [-> | Hin'].
        -- apply Hk. exact Hin.
        -- apply (Hfresh k'); [ right; exact Hin | exact Hin' ].
      * tauto.
    + eapply perm_trans.
      * apply Permutation_app_tail. apply (js_set_fresh out k v Hown Hkp).
      * simpl. apply Permutation_middle.
Qed.

Lemma filter_length_perm :
  forall (A : Type) (f : A -> bool) (l l' : list A),
    Permutation l l' -> List.length (filter f l) = List.length (filter f l').
Proof.
  intros A f l l' H. induction H as [| x l l' _ IH | x y l | l l' l'' _ IH1 _ IH2 ];
    simpl.
  - reflexivity.
  - destruct (f x); simpl; rewrite IH; reflexivity.
  - destruct (f x), (f y); reflexivity.
  - rewrite IH1. exact IH2.
Qed.

Lemma total_rows_app :
  forall a b, total_rows (a ++ b) = (total_rows a + total_rows b)%nat.
Proof.
  intros a b. unfold total_rows. rewrite map_app, list_sum_app. reflexivity.
Qed.

Lemma array_rows_from_length :
  forall items i, List.length (array_rows_from i items) = List.length items.
Proof.
  induction items as [| item items IH]; intro i; simpl; [ reflexivity | ].
  rewrite IH. reflexivity.
Qed.

Lemma finish_sections_rows :
  forall basePath st,
    total_rows (finish_sections basePath st)
    = (total_rows (fst st) + List.length (snd st))%nat.
Proof.
  intros basePath [sections [| r scalars]]; simpl.
  - lia.
  - unfold total_rows. simpl. lia.
Qed.

Lemma array_elements_VObj :
  forall es,
    array_elements (VObj es) = list_sum (map (fun kv => entry_array_elements (snd kv)) es).
Proof. reflexivity. Qed.

Lemma collect_entry_rows :
  forall basePath prefix k v st,
    rows_of_object v ->
    exists st',
      collect_entry collectSections basePath k v st = Normal st'
      /\ (total_rows (fst st') + List.length (snd st')
          = total_rows (fst st) + List.length (snd st)
            + List.length (filter non_array (write_entry flat_writes prefix k v))
            + entry_array_elements v)%nat.
Proof.
  intros basePath prefix k v [sections scalars] IH.
  unfold collect_entry, write_entry.
  destruct v as [ | | b | n | s | xs | es ];
    try (unfold is_plain_object; simpl; rewrite ?andb_false_r; simpl;
         eexists; split; [ reflexivity | ];
         simpl; rewrite ?length_app; simpl; lia).
  - (* an array *)
    simpl. eexists. split; [ reflexivity | ].
    simpl. rewrite total_rows_app. unfold total_rows at 2. simpl.
    rewrite array_rows_from_length. lia.
  - (* a nested object *)
    change (is_plain_object (VObj es)) with true. cbv iota.
    change (truthy (VObj es) && jstype_eqb (typeof (VObj es)) TObject) with true.
    change (Array_isArray (VObj es)) with false. cbv iota.
    destruct (IH es eq_refl (join_path basePath k) (join_path prefix k))
      as [sub [-> Hsub]].
    eexists. split; [ reflexivity | ].
    simpl fst; simpl snd. rewrite total_rows_app, Hsub.
    unfold entry_array_elements. lia.
Qed.

Lemma collectSections_rows : forall v, rows_of_object v.
Proof.
  induction v as [ | | b | n | s | xs IH | es IH ] using jsval_ind';
    intros es' E; try discriminate E.
  clear es' E. intros basePath prefix.
  rewrite collectSections_unfold_VObj, flat_writes_VObj, array_elements_VObj.
  assert (H : forall st, exists st',
             forEachM (fun kv st =>
                         collect_entry collectSections basePath (fst kv) (snd kv) st)
               es st = Normal st'
             /\ (total_rows (fst st') + List.length (snd st')
                 = total_rows (fst st) + List.length (snd st)
                   + List.length
                       (filter non_array
                          (flat_map (fun kv =>
                                       write_entry flat_writes prefix (fst kv) (snd kv)) es))
                   + list_sum (map (fun kv => entry_array_elements (snd kv)) es))%nat).
  { induction IH as [| kv es Hv _ IHes]; intro st; simpl.
    - eexists. split; [ reflexivity | lia ].
    - destruct (collect_entry_rows basePath prefix (fst kv) (snd kv) st Hv)
        as [st1 [-> H1]].
      simpl. destruct (IHes st1) as [st' [-> H']].
      eexists. split; [ reflexivity | ].
      rewrite filter_app, length_app. lia. }
  destruct (H ([], [])) as [st' [-> H']].
  eexists. split; [ reflexivity | ].
  rewrite finish_sections_rows. simpl in H'. exact H'.
Qed.

(** C3, as the code has it.  For every document whose leaves are flattened
    to pairwise distinct paths, none of them [__proto__], the rows of all
    the sections of [collectSections(D)] are as many as the entries of
    [flatten(D)] that are not arrays plus the elements of the arrays reached
    in [D] without crossing another array. *)
Theorem rows_count_distinct_paths :
  forall es,
    NoDup (map fst (flat_writes (VObj es) "")) ->
    ~ In "__proto__" (map fst (flat_writes (VObj es) "")) ->
    rows_count_identity (VObj es).
Proof.
  intros es Hnd Hproto. unfold rows_count_identity.
  destruct (collectSections_rows (VObj es) es eq_refl "" "") as [secs [Hsecs Hrows]].
  eexists. exists secs. split; [ apply flatten_writes | ].
  split; [ exact Hsecs | ].
  rewrite Hrows. f_equal. unfold non_array_entries, entries_of.
  symmetry. apply filter_length_perm.
  apply (fold_assign_perm _ empty_object Hnd); [ | exact Hproto ].
  intros k _ H. exact H.
Qed.

Lemma rows_count_distinct_paths_witness : rows_count_identity demo.
Proof.
  apply rows_count_distinct_paths.
  - vm_compute. repeat (constructor; [ intro H;
      repeat (destruct H as [H | H]; [ discriminate H | ]); contradiction | ]).
    constructor.
  - vm_compute. intro H.
    repeat (destruct H as [H | H]; [ discriminate H | ]). contradiction.
Defined.

(** C3, as stated, fails when two leaves are flattened to the same path:
    the later assignment overwrites the earlier entry, while both leaves
    are rows. *)
Lemma rows_count_counterexample :
  ~ rows_count_identity (VObj [("a.b", VNum 1); ("a", VObj [("b", VNum 2)])]).
Proof.
  intros (flat & secs & E1 & E2 & H).
  vm_compute in E1. injection E1 as <-.
  vm_compute in E2. injection E2 as <-.
  vm_compute in H. discriminate H.
Qed.

(* ================================================================== *)
(** ** Properties: text cards *)

Lemma shortText_In :
  forall es k s,
    In (k, VStr s) es -> (String.length s <? 80)%nat = true ->
    In (k, s) (shortText es).
Proof.
  induction es as [| [k' v'] es IH]; intros k s Hin Hlen; [ contradiction | ].
  destruct Hin as [E | Hin].
  - injection E as -> ->. simpl. rewrite Hlen. left. reflexivity.
  - specialize (IH k s Hin Hlen).
    destruct v'; simpl; try exact IH.
    destruct (String.length s0 <? 80)%nat; [ right | ]; exact IH.
Qed.

(** C10. An entry of the flattened document whose value is the empty string
    qualifies for the text cards (its length 0 is below 80, and the
    selection does not ask for a non-empty string); when it is among the
    first two qualifying entries the summary holds a text card whose
    displayed value is empty, although [classifyValue] classifies the empty
    string as structured, not as short text. *)
Theorem empty_string_text_card :
  forall fmt : float -> string,
    (forall raw flat k,
        flatten raw "" empty_object = Normal flat ->
        In (k, VStr "") (entries_of flat) ->
        In (k, "") (shortText (entries_of flat)))
    /\ (forall raw flat k,
          truthy raw = true ->
          flatten raw "" empty_object = Normal flat ->
          In (k, "") (firstn 2 (shortText (entries_of flat))) ->
          exists cards,
            summaryCards fmt raw = Normal cards
            /\ In {| label := prettifyKey k; value := ""; hint := Some "text field" |}
                 cards)
    /\ (exists cards,
          summaryCards fmt (VObj [("note", VStr "")]) = Normal cards
          /\ In {| label := "Note"; value := ""; hint := Some "text field" |} cards)
    /\ classifyValue (VStr "") = Json.
Proof.
  intro fmt. split; [ | split; [ | split ] ].
  - intros raw flat k _ Hin. apply shortText_In; [ exact Hin | reflexivity ].
  - intros raw flat k Htruthy Hflat Hin.
    unfold summaryCards. rewrite Htruthy, Hflat. simpl.
    eexists. split; [ reflexivity | ].
    apply in_or_app. right. unfold topText.
    apply (in_map (fun kv => {| label := prettifyKey (fst kv);
                                value := snd kv;
                                hint := Some "text field" |}) _ (k, "")).
    exact Hin.
  - eexists. split; [ vm_compute; reflexivity | ].
    left. reflexivity.
  - reflexivity.
Qed.

Lemma empty_string_text_card_witness :
  In ("lot.note", "")
    (shortText [("address", VStr "1 Main St"); ("lot.note", VStr "")])
  /\ exists cards,
      summaryCards en_US_integer
        (VObj [("address", VStr "1 Main St"); ("lot", VObj [("note", VStr "")])])
      = Normal cards
      /\ In {| label := prettifyKey "lot.note"; value := ""; hint := Some "text field" |}
           cards.
Proof.
  destruct (empty_string_text_card en_US_integer) as (Hq & Hcard & _).
  split.
  - apply (Hq (VObj [("address", VStr "1 Main St"); ("lot", VObj [("note", VStr "")])])
              {| props := [("address", VStr "1 Main St"); ("lot.note", VStr "")];
                 proto_setter := true |}
              "lot.note").
    + vm_compute. reflexivity.
    + right. left. reflexivity.
  - apply (Hcard (VObj [("address", VStr "1 Main St"); ("lot", VObj [("note", VStr "")])])
                 {| props := [("address", VStr "1 Main St"); ("lot.note", VStr "")];
                    proto_setter := true |}
                 "lot.note").
    + reflexivity.
    + vm_compute. reflexivity.
    + right. left. reflexivity.
Defined.

(* ================================================================== *)
(** ** Properties: the displayed rows *)

Lemma mapM_Forall2 :
  forall (A B : Type) (f : A -> completion B) (l : list A) (l' : list B),
    mapM f l = Normal l' -> Forall2 (fun a b => f a = Normal b) l l'.
Proof.
  intros A B f l. induction l as [| a l IH]; intros l' H; simpl in H.
  - injection H as <-. constructor.
  - destruct (f a) as [b | e] eqn:Ea; simpl in H; [ | discriminate H ].
    destruct (mapM f l) as [bs | e] eqn:El; simpl in H; [ | discriminate H ].
    injection H as <-. constructor; [ exact Ea | apply IH; reflexivity ].
Qed.


Lemma mapM_cons :
  forall (A B : Type) (f : A -> completion B) (a : A) (l : list A),
    mapM f (a :: l) = (b <- f a ;; bs <- mapM f l ;; Normal (b :: bs)).
Proof. reflexivity. Qed.

Lemma mapM_throws :
  forall (A B : Type) (f : A -> completion B) (a : A) (l : list A) (e : error),
    f a = Throw e -> mapM f (a :: l) = Throw e.
Proof. intros A B f a l e H. simpl. rewrite H. reflexivity. Qed.

Lemma display_section_fields :
  forall fmt g s,
    display_section fmt g = Normal s ->
    SectionWithCount.title s = prettifyKey (title g)
    /\ SectionWithCount.path s = path g
    /\ SectionWithCount.count s = List.length (rows g)
    /\ Forall2 (fun r d => display_row fmt r = Normal d)
         (rows g) (SectionWithCount.rows s).
Proof.
  intros fmt g s H. unfold display_section in H.
  destruct (mapM (display_row fmt) (rows g)) as [rows' | e] eqn:E; simpl in H;
    [ | discriminate H ].
  injection H as <-. simpl. repeat split. apply mapM_Forall2. exact E.
Qed.

Lemma sections_groups :
  forall fmt raw secs,
    sections fmt raw = Normal secs ->
    exists groups,
      (truthy raw = true -> collectSections raw "" = Normal groups)
      /\ (truthy raw = false -> groups = [])
      /\ Forall2 (fun g s => display_section fmt g = Normal s) groups secs.
Proof.
  intros fmt raw secs H. unfold sections in H.
  destruct (truthy raw); simpl in H.
  - destruct (collectSections raw "") as [groups | e]; simpl in H;
      [ | discriminate H ].
    exists groups. split; [ reflexivity | ]. split; [ discriminate | ].
    apply mapM_Forall2. exact H.
  - injection H as <-. exists []. split; [ discriminate | ].
    split; [ reflexivity | constructor ].
Qed.

(** The count shown for a section is the number of its displayed rows, and
    the displayed sections keep the paths of [collectSections] in order, so
    the count is hidden exactly for a section without rows. *)
Theorem sections_count_is_rows :
  forall fmt raw secs,
    sections fmt raw = Normal secs ->
    Forall (fun s =>
              SectionWithCount.count s = List.length (SectionWithCount.rows s)
              /\ (count_badge s = None <-> SectionWithCount.rows s = []))
      secs
    /\ (truthy raw = true ->
        exists groups,
          collectSections raw "" = Normal groups
          /\ map SectionWithCount.path secs = map path groups
          /\ map SectionWithCount.title secs = map (fun g => prettifyKey (title g)) groups
          /\ map SectionWithCount.count secs = map (fun g => List.length (rows g)) groups).
Proof.
  intros fmt raw secs H.
  destruct (sections_groups fmt raw secs H) as [groups [Hgroups [_ Hall]]].
  clear H. split.
  - clear Hgroups.
    induction Hall as [| g s groups secs Hgs _ IH]; [ constructor | ].
    constructor; [ | exact IH ].
    destruct (display_section_fields fmt g s Hgs) as (_ & _ & Hcount & Hrows).
    assert (Hlen : SectionWithCount.count s = List.length (SectionWithCount.rows s)).
    { rewrite Hcount. apply (Forall2_length Hrows). }
    split; [ exact Hlen | ].
    unfold count_badge. rewrite Hlen.
    destruct (SectionWithCount.rows s); simpl; split; intro E;
      try reflexivity; discriminate E.
  - intro Ht. exists groups. split; [ apply Hgroups; exact Ht | ].
    clear Hgroups.
    induction Hall as [| g s groups secs Hgs _ IH]; simpl; [ repeat split | ].
    destruct (display_section_fields fmt g s Hgs) as (Htitle & Hpath & Hcount & _).
    destruct IH as (IH1 & IH2 & IH3).
    rewrite Htitle, Hpath, Hcount, IH1, IH2, IH3. repeat split.
Qed.

Lemma sections_count_is_rows_witness :
  Forall (fun s =>
            SectionWithCount.count s = List.length (SectionWithCount.rows s)
            /\ (count_badge s = None <-> SectionWithCount.rows s = []))
    [ SectionWithCount.mk "Tags" "tags" 0 [];
      SectionWithCount.mk "Lot" "lot" 1 [ RowData.mk "Corner" "false" Bool ] ].
Proof.
  apply (sections_count_is_rows en_US_integer
           (VObj [("tags", VArr []); ("lot", VObj [("corner", VBool false)])])).
  vm_compute. reflexivity.
Defined.

Lemma display_row_fields :
  forall fmt r d,
    display_row fmt r = Normal d ->
    RowData.k d = prettifyKey (Row.k r)
    /\ RowData.t d = classifyValue (Row.v r)
    /\ match Row.v r with
       | VNum n => Normal (RowData.v d) = Normal (formatNumber fmt n)
       | v => Normal (RowData.v d) = ToString v
       end.
Proof.
  intros fmt [k v] d H. unfold display_row in H. cbn [Row.v Row.k] in *.
  destruct v as [ | | b | n | s | xs | es ].
  - injection H as <-. repeat split; reflexivity.
  - injection H as <-. repeat split; reflexivity.
  - destruct b; injection H as <-; repeat split; reflexivity.
  - injection H as <-. repeat split; reflexivity.
  - unfold classifyValue in *. cbn [typeof jstype_eqb] in *.
    destruct (((0 <? String.length s) && (String.length s <? 120))%nat);
      injection H as <-; repeat split; reflexivity.
  - change (classifyValue (VArr xs)) with Json in *. cbv iota in H.
    destruct (ToString (VArr xs)) as [str | e]; [ | discriminate H ].
    injection H as <-. repeat split; reflexivity.
  - change (classifyValue (VObj es)) with Json in *. cbv iota in H.
    destruct (ToString (VObj es)) as [str | e]; [ | discriminate H ].
    injection H as <-. repeat split; reflexivity.
Qed.

(** Every boolean field is displayed as [Yes], whether it is true or false:
    the row that [collectSections] returns for a boolean is displayed as a
    row of kind [Bool] carrying the string [String(v)], and both [true] and
    [false] are non-empty strings. *)
Theorem boolean_cells_say_yes :
  forall fmt raw secs,
    truthy raw = true ->
    sections fmt raw = Normal secs ->
    exists groups,
      collectSections raw "" = Normal groups
      /\ Forall2 (fun g s =>
                    Forall2 (fun r d =>
                               forall b, Row.v r = VBool b ->
                                 RowData.t d = Bool
                                 /\ RowData.v d = (if b then "true" else "false")
                                 /\ cell_text d = "Yes")
                      (rows g) (SectionWithCount.rows s))
           groups secs.
Proof.
  intros fmt raw secs Ht H.
  destruct (sections_groups fmt raw secs H) as [groups [Hgroups [_ Hall]]].
  exists groups. split; [ apply Hgroups; exact Ht | ].
  clear H Hgroups.
  induction Hall as [| g s groups secs Hgs _ IH]; [ constructor | ].
  constructor; [ | exact IH ].
  destruct (display_section_fields fmt g s Hgs) as (_ & _ & _ & Hrows).
  induction Hrows as [| r d rs ds Hrd _ IHrows]; [ constructor | ].
  constructor; [ | exact IHrows ].
  intros b E. destruct (display_row_fields fmt r d Hrd) as (_ & Hkind & Hv).
  rewrite E in Hkind, Hv. unfold cell_text. rewrite Hkind.
  change (classifyValue (VBool b)) with Bool. cbv iota.
  destruct b; simpl in Hv; injection Hv as ->; repeat split.
Qed.

Lemma boolean_cells_say_yes_witness :
  exists groups,
    collectSections
      (VObj [("lot", VObj [("corner", VBool false); ("sold", VBool true)])]) ""
    = Normal groups
    /\ Forall2 (fun g s =>
                  Forall2 (fun r d =>
                             forall b, Row.v r = VBool b ->
                               RowData.t d = Bool
                               /\ RowData.v d = (if b then "true" else "false")
                               /\ cell_text d = "Yes")
                    (rows g) (SectionWithCount.rows s))
         groups
         [ SectionWithCount.mk "Lot" "lot" 2
             [ RowData.mk "Corner" "false" Bool; RowData.mk "Sold" "true" Bool ] ].
Proof.
  apply (boolean_cells_say_yes en_US_integer
           (VObj [("lot", VObj [("corner", VBool false); ("sold", VBool true)])])).
  - reflexivity.
  - vm_compute. reflexivity.
Defined.

(** What a structured row shows: an object (an element of an array) is
    displayed as the quoted text [[object Object]], never as its content,
    and [null] as the quoted text [null]. *)
Theorem structured_rows_hide_content :
  forall fmt raw secs,
    truthy raw = true ->
    sections fmt raw = Normal secs ->
    exists groups,
      collectSections raw "" = Normal groups
      /\ Forall2 (fun g s =>
                    Forall2 (fun r d =>
                               (forall es, Row.v r = VObj es ->
                                  RowData.v d = "[object Object]"
                                  /\ cell_text d = quoted "[object Object]")
                               /\ (Row.v r = VNull ->
                                   RowData.v d = "null"
                                   /\ cell_text d = quoted "null"))
                      (rows g) (SectionWithCount.rows s))
           groups secs.
Proof.
  intros fmt raw secs Ht H.
  destruct (sections_groups fmt raw secs H) as [groups [Hgroups [_ Hall]]].
  exists groups. split; [ apply Hgroups; exact Ht | ].
  clear H Hgroups.
  induction Hall as [| g s groups secs Hgs _ IH]; [ constructor | ].
  constructor; [ | exact IH ].
  destruct (display_section_fields fmt g s Hgs) as (_ & _ & _ & Hrows).
  induction Hrows as [| r d rs ds Hrd _ IHrows]; [ constructor | ].
  constructor; [ | exact IHrows ].
  destruct (display_row_fields fmt r d Hrd) as (_ & Hkind & Hv).
  split.
  - intros es E. rewrite E in Hkind, Hv. simpl in Hv.
    destruct (has_own "toString" es); [ discriminate Hv | ].
    injection Hv as Hv. unfold cell_text. rewrite Hkind, Hv.
    split; reflexivity.
  - intro E. rewrite E in Hkind, Hv. simpl in Hv. injection Hv as Hv.
    unfold cell_text. rewrite Hkind, Hv. split; reflexivity.
Qed.

Lemma structured_rows_hide_content_witness :
  exists groups,
    collectSections demo "" = Normal groups
    /\ Forall2 (fun g s =>
                  Forall2 (fun r d =>
                             (forall es, Row.v r = VObj es ->
                                RowData.v d = "[object Object]"
                                /\ cell_text d = quoted "[object Object]")
                             /\ (Row.v r = VNull ->
                                 RowData.v d = "null"
                                 /\ cell_text d = quoted "null"))
                    (rows g) (SectionWithCount.rows s))
         groups
         (match sections en_US_integer demo with
          | Normal secs => secs
          | Throw _ => []
          end).
Proof.
  apply (structured_rows_hide_content en_US_integer demo).
  - reflexivity.
  - vm_compute. reflexivity.
Defined.











(* ================================================================== *)
(** ** Properties: where the summary cards come from *)

Lemma firstn_In :
  forall (A : Type) (n : nat) (l : list A) (x : A), In x (firstn n l) -> In x l.
Proof.
  intros A n l x H. rewrite <- (firstn_skipn n l). apply in_or_app. left. exact H.
Qed.

Lemma numericEntries_In :
  forall es k n, In (k, n) (numericEntries es) -> In (k, VNum n) es.
Proof.
  induction es as [| [k' v'] es IH]; intros k n H; [ contradiction | ].
  destruct v'; simpl in H; try (right; apply IH; exact H).
  destruct H as [E | H]; [ injection E as -> ->; left; reflexivity | ].
  right. apply IH. exact H.
Qed.

Lemma shortText_In_inv :
  forall es k s,
    In (k, s) (shortText es) ->
    In (k, VStr s) es /\ (String.length s < 80)%nat.
Proof.
  induction es as [| [k' v'] es IH]; intros k s H; [ contradiction | ].
  destruct v'; simpl in H;
    try (destruct (IH k s H) as [Hin Hlen]; split; [ right; exact Hin | exact Hlen ]).
  destruct (String.length s0 <? 80)%nat eqn:E.
  - destruct H as [Eq | H].
    + injection Eq as -> ->. split; [ left; reflexivity | ].
      apply Nat.ltb_lt. exact E.
    + destruct (IH k s H) as [Hin Hlen]. split; [ right; exact Hin | exact Hlen ].
  - destruct (IH k s H) as [Hin Hlen]. split; [ right; exact Hin | exact Hlen ].
Qed.

(** Whenever [summaryCards] returns, it returns at most five cards: at most
    three numeric cards, which carry no hint, followed by at most two text
    cards, which carry the hint [text field]. *)
Theorem summaryCards_shape :
  forall fmt raw cards,
    summaryCards fmt raw = Normal cards ->
    exists nums texts,
      cards = nums ++ texts
      /\ (List.length nums <= 3)%nat
      /\ (List.length texts <= 2)%nat
      /\ Forall (fun c => hint c = None) nums
      /\ Forall (fun c => hint c = Some "text field") texts.
Proof.
  intros fmt raw cards H. unfold summaryCards in H.
  destruct (truthy raw); simpl in H.
  - destruct (flatten raw "" empty_object) as [flat | e]; simpl in H;
      [ | discriminate H ].
    injection H as <-.
    exists (topNums fmt flat), (topText flat).
    split; [ reflexivity | ].
    unfold topNums, topText. rewrite !length_map.
    split; [ apply firstn_le_length | ].
    split; [ apply firstn_le_length | ].
    split; apply Forall_forall; intros c Hc; apply in_map_iff in Hc;
      destruct Hc as [kv [<- _]]; reflexivity.
  - injection H as <-. exists [], []. repeat split; try constructor; simpl; lia.
Qed.

Lemma summaryCards_shape_witness :
  exists nums texts,
    match summaryCards en_US_integer demo with
    | Normal cards => cards
    | Throw _ => []
    end = nums ++ texts
    /\ (List.length nums <= 3)%nat
    /\ (List.length texts <= 2)%nat
    /\ Forall (fun c => hint c = None) nums
    /\ Forall (fun c => hint c = Some "text field") texts.
Proof.
  apply (summaryCards_shape en_US_integer demo).
  vm_compute. reflexivity.
Defined.

(** Every summary card shows an entry of the flattened document: a numeric
    card a numeric entry, formatted, and a text card a string entry of fewer
    than 80 characters, verbatim; the label is the prettified path. *)
Theorem summaryCards_provenance :
  forall fmt raw cards c,
    summaryCards fmt raw = Normal cards ->
    In c cards ->
    exists flat k,
      flatten raw "" empty_object = Normal flat
      /\ label c = prettifyKey k
      /\ ((exists n, In (k, VNum n) (entries_of flat)
                     /\ value c = formatNumber fmt n /\ hint c = None)
          \/ (exists s, In (k, VStr s) (entries_of flat)
                        /\ (String.length s < 80)%nat
                        /\ value c = s /\ hint c = Some "text field")).
Proof.
  intros fmt raw cards c H Hc. unfold summaryCards in H.
  destruct (truthy raw); simpl in H; [ | injection H as <-; contradiction ].
  destruct (flatten raw "" empty_object) as [flat | e]; simpl in H;
    [ | discriminate H ].
  injection H as <-. exists flat.
  apply in_app_or in Hc. destruct Hc as [Hc | Hc].
  - unfold topNums in Hc. apply in_map_iff in Hc. destruct Hc as [[k n] [<- Hin]].
    exists k. split; [ reflexivity | ]. split; [ reflexivity | ].
    left. exists n. repeat split.
    apply numericEntries_In. apply firstn_In in Hin.
    apply (Permutation_in _ (Array_sort_perm _ _ _) Hin).
  - unfold topText in Hc. apply in_map_iff in Hc. destruct Hc as [[k s] [<- Hin]].
    exists k. split; [ reflexivity | ]. split; [ reflexivity | ].
    right. exists s. apply firstn_In in Hin.
    destruct (shortText_In_inv _ _ _ Hin) as [Hentry Hlen].
    repeat split; assumption.
Qed.

Lemma summaryCards_provenance_witness :
  exists flat k,
    flatten demo "" empty_object = Normal flat
    /\ "Lot Area Sqm" = prettifyKey k
    /\ ((exists n, In (k, VNum n) (entries_of flat)
                   /\ en_US_integer 1450%float = formatNumber en_US_integer n
                   /\ @None string = None)
        \/ (exists s, In (k, VStr s) (entries_of flat)
                      /\ (String.length s < 80)%nat
                      /\ en_US_integer 1450%float = s
                      /\ @None string = Some "text field")).
Proof.
  apply (summaryCards_provenance en_US_integer demo
           (match summaryCards en_US_integer demo with
            | Normal cards => cards
            | Throw _ => []
            end)
           {| label := "Lot Area Sqm"; value := en_US_integer 1450%float; hint := None |}).
  - vm_compute. reflexivity.
  - vm_compute. left. reflexivity.
Defined.

(* ================================================================== *)
(** ** Properties: the entries of the flattened object *)

Lemma js_set_keys_NoDup :
  forall o k v,
    NoDup (map fst (props o)) -> NoDup (map fst (props (js_set o k v))).
Proof.
  intros o k v H. unfold js_set. destruct (has_own k (props o)) eqn:Eown.
  - simpl. rewrite replace_own_keys. exact H.
  - destruct (String.eqb k "__proto__" && proto_setter o).
    + destruct v; exact H.
    + simpl.
      apply (Permutation_NoDup
               (Permutation_sym (Permutation_map fst (define_own_perm k v (props o))))).
      simpl. constructor; [ | exact H ].
      intro Hin. apply has_own_In in Hin. rewrite Hin in Eown. discriminate Eown.
Qed.

Lemma fold_assign_keys_NoDup :
  forall ws out,
    NoDup (map fst (props out)) -> NoDup (map fst (props (fold_left assign ws out))).
Proof.
  induction ws as [| kv ws IH]; intros out H; simpl; [ exact H | ].
  apply IH. apply js_set_keys_NoDup. exact H.
Qed.

(** The flattened document holds each path once, and each of its entries
    is a leaf of the document under the path [flatten] gives it: nothing is
    stored that the walk did not assign. *)
Theorem flatten_entries_are_leaves :
  forall D,
  exists flat,
    flatten D "" empty_object = Normal flat
    /\ NoDup (map fst (entries_of flat))
    /\ forall kv, In kv (entries_of flat) -> In kv (flat_writes D "").
Proof.
  intro D. eexists. split; [ apply flatten_writes | ].
  split.
  - apply fold_assign_keys_NoDup. constructor.
  - apply Forall_forall.
    apply (fold_assign_Forall (fun kv => In kv (flat_writes D ""))).
    + apply Forall_forall. intros kv H. exact H.
    + constructor.
Qed.

Lemma replace_own_stores :
  forall k v ps, has_own k ps = true -> In (k, v) (replace_own k v ps).
Proof.
  intros k v ps. induction ps as [| [k' v'] ps IH]; simpl; [ discriminate | ].
  intro H. destruct (String.eqb k' k); simpl in *.
  - left. reflexivity.
  - right. apply IH. exact H.
Qed.

Lemma js_set_stores :
  forall o k v, k <> "__proto__" -> In (k, v) (props (js_set o k v)).
Proof.
  intros o k v Hk. destruct (has_own k (props o)) eqn:E.
  - unfold js_set. rewrite E. simpl. apply replace_own_stores. exact E.
  - apply (Permutation_in _ (Permutation_sym (js_set_fresh o k v E Hk))).
    left. reflexivity.
Qed.

Lemma replace_own_other :
  forall k w ps p v, p <> k -> In (p, v) ps -> In (p, v) (replace_own k w ps).
Proof.
  intros k w ps p v Hp. induction ps as [| [k' v'] ps IH]; simpl; [ tauto | ].
  intros [E | H].
  - injection E as -> ->. destruct (String.eqb p k) eqn:Ek.
    + apply String.eqb_eq in Ek. contradiction.
    + left. reflexivity.
  - destruct (String.eqb k' k); right; [ exact H | apply IH; exact H ].
Qed.

Lemma js_set_other :
  forall o k w p v, p <> k -> In (p, v) (props o) -> In (p, v) (props (js_set o k w)).
Proof.
  intros o k w p v Hp H. unfold js_set. destruct (has_own k (props o)).
  - simpl. apply replace_own_other; assumption.
  - destruct (String.eqb k "__proto__" && proto_setter o).
    + destruct w; exact H.
    + simpl. apply (Permutation_in _ (Permutation_sym (define_own_perm k w (props o)))).
      right. exact H.
Qed.

Lemma fold_assign_other :
  forall ws out p v,
    ~ In p (map fst ws) -> In (p, v) (props out) ->
    In (p, v) (props (fold_left assign ws out)).
Proof.
  induction ws as [| [k w] ws IH]; intros out p v Hp H; simpl; [ exact H | ].
  simpl in Hp. apply IH; [ tauto | ].
  apply js_set_other; [ intro E; apply Hp; left; symmetry; exact E | exact H ].
Qed.

(** When several leaves of a document are flattened to the same path, the
    entry holds the value of the last of them in the order of the walk. *)
Theorem flatten_last_write_wins :
  forall D ws1 p v ws2,
    flat_writes D "" = ws1 ++ (p, v) :: ws2 ->
    ~ In p (map fst ws2) ->
    p <> "__proto__" ->
    exists flat,
      flatten D "" empty_object = Normal flat
      /\ In (p, v) (entries_of flat)
      /\ forall v', In (p, v') (entries_of flat) -> v' = v.
Proof.
  intros D ws1 p v ws2 Hws Hlast Hp.
  destruct (flatten_entries_are_leaves D) as [flat [Hflat [Hnd _]]].
  exists flat. split; [ exact Hflat | ].
  assert (Hin : In (p, v) (entries_of flat)).
  { rewrite (flatten_writes D "" empty_object) in Hflat. injection Hflat as <-.
    rewrite Hws, fold_left_app. simpl.
    apply fold_assign_other; [ exact Hlast | ].
    apply js_set_stores. exact Hp. }
  split; [ exact Hin | ].
  intros v' Hin'. unfold entries_of in *.
  clear - Hnd Hin Hin'. induction (props flat) as [| [k w] ps IH];
    [ contradiction | ].
  simpl in Hnd. inversion Hnd as [| ? ? Hk Hnd']; subst.
  destruct Hin as [E | Hin], Hin' as [E' | Hin'].
  - injection E as _ <-. injection E' as _ <-. reflexivity.
  - injection E as -> _. exfalso. apply Hk.
    change p with (fst (p, v')). apply in_map. exact Hin'.
  - injection E' as -> _. exfalso. apply Hk.
    change p with (fst (p, v)). apply in_map. exact Hin.
  - apply IH; assumption.
Qed.

Lemma flatten_last_write_wins_witness :
  exists flat,
    flatten (VObj [("a.b", VNum 1); ("a", VObj [("b", VNum 2)])]) "" empty_object
    = Normal flat
    /\ In ("a.b", VNum 2) (entries_of flat)
    /\ forall v', In ("a.b", v') (entries_of flat) -> v' = VNum 2.
Proof.
  apply (flatten_last_write_wins _ [("a.b", VNum 1)] "a.b" (VNum 2) []).
  - reflexivity.
  - intros [].
  - discriminate.
Defined.

(* ================================================================== *)
(** ** Properties: the shape of the sections *)

Lemma forEachM_nil :
  forall (A St : Type) (f : A -> St -> completion St) (s : St),
    forEachM f [] s = Normal s.
Proof. reflexivity. Qed.

Lemma forEachM_cons :
  forall (A St : Type) (f : A -> St -> completion St) (a : A) (l : list A) (s : St),
    forEachM f (a :: l) s = (s' <- f a s ;; forEachM f l s').
Proof. reflexivity. Qed.

Lemma collect_entry_state :
  forall basePath k v sections scalars st',
    collect_entry collectSections basePath k v (sections, scalars) = Normal st' ->
    snd st' = scalars ++ (if is_container v then [] else [Row.mk k v])
    /\ exists more, fst st' = sections ++ more.
Proof.
  intros basePath k v sections scalars st' H. unfold collect_entry in H.
  fold (is_container v) in H. destruct (is_container v).
  - destruct (Array_isArray v).
    + injection H as <-. simpl. rewrite app_nil_r. split; [ reflexivity | ].
      eexists; reflexivity.
    + destruct (collectSections v (join_path basePath k)) as [sub | e]; simpl in H;
        [ | discriminate H ].
      injection H as <-. simpl. rewrite app_nil_r. split; [ reflexivity | ].
      eexists; reflexivity.
  - injection H as <-. simpl. split; [ reflexivity | ].
    exists []. rewrite app_nil_r. reflexivity.
Qed.

Lemma collect_loop_state :
  forall basePath es sections scalars st',
    forEachM (fun kv st => collect_entry collectSections basePath (fst kv) (snd kv) st)
      es (sections, scalars) = Normal st' ->
    snd st' = scalars ++ scalar_rows es
    /\ exists more, fst st' = sections ++ more.
Proof.
  intros basePath es. induction es as [| [k v] es IH];
    intros sections scalars st' H.
  - rewrite forEachM_nil in H. injection H as <-. simpl.
    unfold scalar_rows. simpl. rewrite app_nil_r.
    split; [ reflexivity | ]. exists []. rewrite app_nil_r. reflexivity.
  - rewrite forEachM_cons in H. cbn [fst snd] in H.
    destruct (collect_entry collectSections basePath k v (sections, scalars))
      as [[sections1 scalars1] | e] eqn:E; simpl in H; [ | discriminate H ].
    destruct (collect_entry_state _ _ _ _ _ _ E) as [Hscal [more1 Hsecs]].
    simpl in Hscal, Hsecs. subst sections1 scalars1.
    destruct (IH _ _ _ H) as [Hscal' [more Hsecs']].
    split.
    + rewrite Hscal'. unfold scalar_rows. simpl.
      destruct (is_container v); simpl; rewrite <- app_assoc; reflexivity.
    + exists (more1 ++ more). rewrite Hsecs', app_assoc. reflexivity.
Qed.

Lemma collect_loop_sections :
  forall basePath es sections scalars st',
    forEachM (fun kv st => collect_entry collectSections basePath (fst kv) (snd kv) st)
      es (sections, scalars) = Normal st' ->
    exists subs,
      Forall2 (field_sections basePath) (container_fields es) subs
      /\ fst st' = sections ++ List.concat subs.
Proof.
  intros basePath es. induction es as [| [k v] es IH];
    intros sections scalars st' H.
  - rewrite forEachM_nil in H. injection H as <-. exists [].
    split; [ constructor | ]. simpl. rewrite app_nil_r. reflexivity.
  - rewrite forEachM_cons in H. cbn [fst snd] in H.
    destruct (collect_entry collectSections basePath k v (sections, scalars))
      as [[sections1 scalars1] | e] eqn:E; simpl in H; [ | discriminate H ].
    destruct (IH _ _ _ H) as [subs [Hsubs Hfst]].
    unfold collect_entry in E. fold (is_container v) in E.
    unfold container_fields. cbn [filter snd]. fold (container_fields es).
    destruct (is_container v).
    + destruct (Array_isArray v) eqn:Ea.
      * injection E as <- _.
        exists ([ {| title := k; path := join_path basePath k;
                     rows := array_rows_from 0 (elements v) |} ] :: subs).
        split.
        -- constructor; [ | exact Hsubs ].
           unfold field_sections. cbn [fst snd]. rewrite Ea. reflexivity.
        -- rewrite Hfst. cbn [List.concat]. rewrite <- app_assoc. reflexivity.
      * destruct (collectSections v (join_path basePath k)) as [sub | e] eqn:Es;
          simpl in E; [ | discriminate E ].
        injection E as <- _. exists (sub :: subs). split.
        -- constructor; [ | exact Hsubs ].
           unfold field_sections. cbn [fst snd]. rewrite Ea. exact Es.
        -- rewrite Hfst. cbn [List.concat]. rewrite <- app_assoc. reflexivity.
    + injection E as <- _. exists subs. split; assumption.
Qed.

(** The scalar fields of a level come first.  The sections returned for an
    object are, in this order: when the object has a field that is not an
    object or an array, one section that lists exactly these fields, in the
    order of the document, under the title of the level ([Overview] at the
    root), and no section of its own when it has none; then, for each of
    its object and array fields in the order of the document, the one
    section of the array or the sections that [collectSections] returns for
    the object under the path of the field. *)
Theorem scalar_section_first :
  forall es basePath secs,
    collectSections (VObj es) basePath = Normal secs ->
    exists subs,
      Forall2 (field_sections basePath) (container_fields es) subs
      /\ secs
         = match scalar_rows es with
           | [] => []
           | _ :: _ =>
               [ {| title := section_title basePath; path := basePath;
                    rows := scalar_rows es |} ]
           end ++ List.concat subs
      /\ section_title "" = "Overview".
Proof.
  intros es basePath secs Hsecs.
  rewrite collectSections_unfold_VObj in Hsecs.
  destruct (forEachM _ es ([], [])) as [[sections scalars] | e] eqn:E; simpl in Hsecs;
    [ | discriminate Hsecs ].
  injection Hsecs as <-.
  destruct (collect_loop_state _ _ _ _ _ E) as [Hscal _]. simpl in Hscal.
  destruct (collect_loop_sections _ _ _ _ _ E) as [subs [Hsubs Hfst]].
  simpl in Hfst. subst scalars sections. exists subs.
  split; [ exact Hsubs | ]. split; [ | reflexivity ].
  destruct (scalar_rows es); reflexivity.
Qed.

Lemma scalar_section_first_witness :
  exists subs,
    Forall2 (field_sections "")
      (container_fields (match demo with VObj es => es | _ => [] end)) subs
    /\ match collectSections demo "" with
       | Normal secs => secs
       | Throw _ => []
       end
       = {| title := "Overview"; path := "";
            rows := [Row.mk "address" (VStr "123 George St, Sydney NSW")] |}
           :: List.concat subs.
Proof.
  destruct (scalar_section_first
              (match demo with VObj es => es | _ => [] end) ""
              (match collectSections demo "" with
               | Normal secs => secs
               | Throw _ => []
               end))
    as [subs (Hsubs & H & _)].
  - vm_compute. reflexivity.
  - exists subs. split; [ exact Hsubs | exact H ].
Defined.

Lemma array_rows_from_values :
  forall xs i, map Row.v (array_rows_from i xs) = xs.
Proof.
  induction xs as [| x xs IH]; intro i; simpl; [ reflexivity | ].
  rewrite IH. reflexivity.
Qed.

Lemma array_rows_from_keys :
  forall xs i,
    map Row.k (array_rows_from i xs)
    = map (fun j => ("#" ++ string_of_nat (j + 1))%string) (seq i (List.length xs)).
Proof.
  induction xs as [| x xs IH]; intro i; simpl; [ reflexivity | ].
  rewrite IH. reflexivity.
Qed.

Lemma collect_loop_keeps :
  forall basePath es st st' s,
    forEachM (fun kv st => collect_entry collectSections basePath (fst kv) (snd kv) st)
      es st = Normal st' ->
    In s (fst st) -> In s (fst st').
Proof.
  intros basePath es [sections scalars] st' s H Hin.
  destruct (collect_loop_state _ _ _ _ _ H) as [_ [more ->]].
  apply in_or_app. left. exact Hin.
Qed.

Lemma collect_loop_array :
  forall basePath es st st' k xs,
    forEachM (fun kv st => collect_entry collectSections basePath (fst kv) (snd kv) st)
      es st = Normal st' ->
    In (k, VArr xs) es ->
    In {| title := k; path := join_path basePath k; rows := array_rows_from 0 xs |}
      (fst st').
Proof.
  intros basePath es. induction es as [| [k' v'] es IH];
    intros st st' k xs H Hin; [ contradiction | ].
  rewrite forEachM_cons in H. cbn [fst snd] in H.
  destruct (collect_entry collectSections basePath k' v' st) as [st1 | e] eqn:E;
    simpl in H; [ | discriminate H ].
  destruct Hin as [Eq | Hin].
  - injection Eq as -> ->. apply (collect_loop_keeps _ _ _ _ _ H).
    destruct st as [sections scalars]. unfold collect_entry in E. simpl in E.
    injection E as <-. simpl. apply in_or_app. right. left. reflexivity.
  - apply (IH _ _ _ _ H Hin).
Qed.

(** An array field becomes one section, titled by its key, with one row per
    element: the rows are labelled [#1], [#2], ... and hold the elements
    themselves, in order. *)
Theorem array_field_section :
  forall es basePath k xs,
    In (k, VArr xs) es ->
    exists secs sec,
      collectSections (VObj es) basePath = Normal secs
      /\ In sec secs
      /\ title sec = k
      /\ path sec = join_path basePath k
      /\ map Row.v (rows sec) = xs
      /\ map Row.k (rows sec)
         = map (fun j => ("#" ++ string_of_nat (j + 1))%string)
             (seq 0 (List.length xs)).
Proof.
  intros es basePath k xs Hin.
  destruct (collectSections_total (VObj es) basePath) as [secs Hsecs].
  exists secs,
    {| title := k; path := join_path basePath k; rows := array_rows_from 0 xs |}.
  split; [ exact Hsecs | ].
  split.
  - rewrite collectSections_unfold_VObj in Hsecs.
    destruct (forEachM _ es ([], [])) as [st' | e] eqn:E; simpl in Hsecs;
      [ | discriminate Hsecs ].
    injection Hsecs as <-.
    pose proof (collect_loop_array _ _ _ _ _ _ E Hin) as H.
    destruct st' as [sections [| r scalars]]; simpl in *;
      [ exact H | right; exact H ].
  - simpl. repeat split.
    + apply array_rows_from_values.
    + apply array_rows_from_keys.
Qed.

Lemma array_field_section_witness :
  exists secs sec,
    collectSections demo "" = Normal secs
    /\ In sec secs
    /\ title sec = "overlays"
    /\ path sec = "overlays"
    /\ map Row.v (rows sec)
       = [ VObj [("name", VStr "Heritage Conservation Area"); ("applies", VBool true)];
           VObj [("name", VStr "Flood Planning"); ("applies", VBool false)] ]
    /\ map Row.k (rows sec) = ["#1"; "#2"].
Proof.
  apply (array_field_section (match demo with VObj es => es | _ => [] end) ""
           "overlays").
  simpl. right. right. right. left. reflexivity.
Defined.

Lemma collect_entry_has_rows :
  forall basePath k v st st',
    sections_have_rows v ->
    match v with
    | VArr [] => False
    | VObj _ => no_empty_array v = true
    | _ => True
    end ->
    Forall (fun s => rows s <> []) (fst st) ->
    collect_entry collectSections basePath k v st = Normal st' ->
    Forall (fun s => rows s <> []) (fst st').
Proof.
  intros basePath k v [sections scalars] st' IH Hv Hst H.
  unfold collect_entry in H. simpl in Hst.
  destruct v as [ | | b | n | s | xs | es ];
    try (simpl in H; rewrite ?andb_false_r in H; injection H as <-; exact Hst).
  - simpl in H. injection H as <-. simpl.
    apply Forall_app. split; [ exact Hst | ].
    constructor; [ | constructor ]. simpl.
    destruct xs; [ contradiction | discriminate ].
  - change (truthy (VObj es) && jstype_eqb (typeof (VObj es)) TObject) with true in H.
    change (Array_isArray (VObj es)) with false in H. cbv iota in H.
    destruct (collectSections (VObj es) (join_path basePath k)) as [sub | e] eqn:E;
      simpl in H; [ | discriminate H ].
    injection H as <-. simpl. apply Forall_app. split; [ exact Hst | ].
    apply (IH es eq_refl Hv _ _ E).
Qed.

Lemma collectSections_have_rows : forall v, sections_have_rows v.
Proof.
  induction v as [ | | b | n | s | xs IH | es IH ] using jsval_ind';
    intros es' E; try discriminate E.
  clear es' E. intros Hne basePath secs H.
  rewrite collectSections_unfold_VObj in H.
  assert (Hloop : forall st st',
             Forall (fun s => rows s <> []) (fst st) ->
             forEachM (fun kv st =>
                         collect_entry collectSections basePath (fst kv) (snd kv) st)
               es st = Normal st' ->
             Forall (fun s => rows s <> []) (fst st')).
  { simpl in Hne. clear H.
    induction IH as [| kv es Hkv _ IHes]; intros st st' Hst H.
    - rewrite forEachM_nil in H. injection H as <-. exact Hst.
    - simpl in Hne. apply andb_true_iff in Hne. destruct Hne as [Hhead Htail].
      rewrite forEachM_cons in H.
      destruct (collect_entry collectSections basePath (fst kv) (snd kv) st)
        as [st1 | e] eqn:E; simpl in H; [ | discriminate H ].
      apply (IHes Htail st1 st'); [ | exact H ].
      apply (collect_entry_has_rows basePath (fst kv) (snd kv) st st1 Hkv); try assumption.
      destruct (snd kv) as [ | | | | | [| x xs] | es0 ]; try exact I;
        [ discriminate Hhead | exact Hhead ]. }
  destruct (forEachM _ es ([], [])) as [[sections scalars] | e] eqn:E; simpl in H;
    [ | discriminate H ].
  injection H as <-.
  pose proof (Hloop ([], []) _ (Forall_nil _) E) as Hsecs. simpl in Hsecs.
  destruct scalars as [| r scalars]; simpl; [ exact Hsecs | ].
  constructor; [ discriminate | exact Hsecs ].
Qed.

(** A section without rows comes only from an empty array: in a document
    where no array reached through nested objects is empty, every section
    has at least one row. *)
Theorem sections_without_rows_are_empty_arrays :
  forall es basePath secs,
    no_empty_array (VObj es) = true ->
    collectSections (VObj es) basePath = Normal secs ->
    Forall (fun s => rows s <> []) secs.
Proof.
  intros es basePath secs Hne H.
  apply (collectSections_have_rows (VObj es) es eq_refl Hne basePath secs H).
Qed.

Lemma sections_without_rows_are_empty_arrays_witness :
  Forall (fun s => rows s <> [])
    (match collectSections demo "" with Normal secs => secs | Throw _ => [] end).
Proof.
  apply (sections_without_rows_are_empty_arrays
           (match demo with VObj es => es | _ => [] end) "").
  - reflexivity.
  - vm_compute. reflexivity.
Defined.

(* ================================================================== *)
(** ** Properties: prettifying twice *)

Lemma toUpperCase_not_lower : forall c, is_lower (toUpperCase c) = false.
Proof.
  intro c. destruct c as [[] [] [] [] [] [] [] []]; reflexivity.
Qed.

Lemma toUpperCase_not_separator :
  forall c, not_separator c = true -> not_separator (toUpperCase c) = true.
Proof.
  intro c. destruct c as [[] [] [] [] [] [] [] []]; intro H;
    first [ reflexivity | discriminate H ].
Qed.

Lemma camel_spaces_cons :
  forall a t,
    camel_spaces (String a t)
    = String a (match t with
                | String b _ =>
                    if is_lower a && is_upper b then String " " (camel_spaces t)
                    else camel_spaces t
                | EmptyString => ""
                end).
Proof. reflexivity. Qed.

Lemma camel_spaces_separator_free :
  forall x,
    string_forall not_separator x = true ->
    string_forall not_separator (camel_spaces x) = true.
Proof.
  induction x as [| a t IH]; intro H; [ reflexivity | ].
  rewrite camel_spaces_cons. cbn [string_forall] in *.
  apply andb_true_iff in H. destruct H as [Ha Ht]. rewrite Ha. simpl.
  destruct t as [| b t']; [ reflexivity | ].
  destruct (is_lower a && is_upper b); [ | apply IH; exact Ht ].
  cbn [string_forall]. rewrite (IH Ht). reflexivity.
Qed.

Lemma capitalize_separator_free :
  forall x,
    string_forall not_separator x = true ->
    string_forall not_separator (capitalize x) = true.
Proof.
  intros [| c r] H; [ reflexivity | ].
  cbn [capitalize string_forall] in *.
  apply andb_true_iff in H. destruct H as [Hc Hr].
  rewrite (toUpperCase_not_separator c Hc), Hr. reflexivity.
Qed.

Lemma concat_space_forall :
  forall p l,
    p " "%char = true ->
    Forall (fun t => string_forall p t = true) l ->
    string_forall p (String.concat " " l) = true.
Proof.
  intros p l Hsp H. induction H as [| t l Ht Hl IH]; [ reflexivity | ].
  destruct l as [| t' l']; [ exact Ht | ].
  change (String.concat " " (t :: t' :: l'))
    with (t ++ " " ++ String.concat " " (t' :: l'))%string.
  rewrite string_forall_app, Ht. cbn [append string_forall].
  rewrite Hsp, IH. reflexivity.
Qed.

Lemma prettifyKey_separator_free :
  forall k, string_forall not_separator (prettifyKey k) = true.
Proof.
  intro k. unfold prettifyKey. apply concat_space_forall; [ reflexivity | ].
  rewrite Forall_map, Forall_map.
  eapply Forall_impl; [ | apply split_key_separator_free ].
  intros t Ht. apply capitalize_separator_free.
  rewrite camel_replace_spaces. apply camel_spaces_separator_free. exact Ht.
Qed.

Lemma camel_spaces_no_camel : forall x, no_camel (camel_spaces x) = true.
Proof.
  induction x as [| a t IH]; [ reflexivity | ].
  rewrite camel_spaces_cons. destruct t as [| b t']; [ reflexivity | ].
  destruct (is_lower a && is_upper b) eqn:E.
  - cbn [no_camel]. rewrite IH.
    replace (is_upper " ") with false by reflexivity.
    rewrite andb_false_r. simpl.
    destruct (camel_spaces (String b t')); reflexivity.
  - rewrite camel_spaces_cons in *. cbn [no_camel] in *. rewrite E. simpl.
    exact IH.
Qed.

Lemma capitalize_no_camel :
  forall x, no_camel x = true -> no_camel (capitalize x) = true.
Proof.
  intros [| c r] H; [ reflexivity | ].
  cbn [capitalize no_camel] in *. apply andb_true_iff in H. destruct H as [_ Hr].
  rewrite Hr, toUpperCase_not_lower. simpl. destruct r; reflexivity.
Qed.

Lemma no_camel_join :
  forall a b,
    no_camel a = true -> no_camel b = true ->
    no_camel (a ++ " " ++ b)%string = true.
Proof.
  induction a as [| c a IH]; intros b Ha Hb.
  - cbn [append no_camel]. rewrite Hb. destruct b; reflexivity.
  - cbn [no_camel] in Ha. apply andb_true_iff in Ha. destruct Ha as [Hhead Ha].
    change (String c a ++ " " ++ b)%string with (String c (a ++ " " ++ b))%string.
    cbn [no_camel]. rewrite (IH b Ha Hb), andb_true_r.
    destruct a as [| c' a']; [ | exact Hhead ].
    cbn [append]. replace (is_upper " ") with false by reflexivity.
    rewrite andb_false_r. reflexivity.
Qed.

Lemma concat_space_no_camel :
  forall l,
    Forall (fun t => no_camel t = true) l ->
    no_camel (String.concat " " l) = true.
Proof.
  intros l H. induction H as [| t l Ht Hl IH]; [ reflexivity | ].
  destruct l as [| t' l']; [ exact Ht | ].
  change (String.concat " " (t :: t' :: l'))
    with (t ++ " " ++ String.concat " " (t' :: l'))%string.
  apply no_camel_join; assumption.
Qed.

Lemma prettifyKey_no_camel : forall k, no_camel (prettifyKey k) = true.
Proof.
  intro k. unfold prettifyKey. apply concat_space_no_camel.
  rewrite Forall_map, Forall_map. apply Forall_forall. intros t _.
  apply capitalize_no_camel. rewrite camel_replace_spaces.
  apply camel_spaces_no_camel.
Qed.

Lemma prettifyKey_first_not_lower : forall k, first_not_lower (prettifyKey k) = true.
Proof.
  intro k. unfold prettifyKey.
  pose proof (split_key_nonempty k) as Hne.
  destruct (split_key k) as [| t ts]; [ contradiction | ].
  cbn [map]. destruct ts as [| t' ts'].
  - cbn [map String.concat]. destruct (camel_replace t) as [| c r]; [ reflexivity | ].
    cbn [capitalize first_not_lower]. rewrite toUpperCase_not_lower. reflexivity.
  - change (String.concat " " (capitalize (camel_replace t)
                                 :: map capitalize (map camel_replace (t' :: ts'))))
      with (capitalize (camel_replace t) ++ " "
              ++ String.concat " " (map capitalize (map camel_replace (t' :: ts'))))%string.
    destruct (camel_replace t) as [| c r]; [ reflexivity | ].
    cbn [capitalize append first_not_lower]. rewrite toUpperCase_not_lower. reflexivity.
Qed.

Lemma split_key_whole :
  forall s, string_forall not_separator s = true -> split_key s = [s].
Proof.
  induction s as [| c s IH]; intro H; [ reflexivity | ].
  cbn [string_forall] in H. apply andb_true_iff in H. destruct H as [Hc Hs].
  cbn [split_key]. unfold not_separator in Hc. apply negb_true_iff in Hc.
  rewrite Hc, (IH Hs). reflexivity.
Qed.

Lemma camel_spaces_fixed :
  forall x, no_camel x = true -> camel_spaces x = x.
Proof.
  induction x as [| a t IH]; intro H; [ reflexivity | ].
  rewrite camel_spaces_cons. cbn [no_camel] in H.
  apply andb_true_iff in H. destruct H as [Hhead Ht].
  destruct t as [| b t']; [ reflexivity | ].
  apply negb_true_iff in Hhead. rewrite Hhead, (IH Ht). reflexivity.
Qed.

Lemma capitalize_fixed :
  forall x, first_not_lower x = true -> capitalize x = x.
Proof.
  intros [| c r] H; [ reflexivity | ].
  cbn [capitalize first_not_lower] in *. apply negb_true_iff in H.
  unfold toUpperCase. rewrite H. reflexivity.
Qed.

Lemma toUpperCase_ascii :
  forall c, is_ascii c = true -> is_ascii (toUpperCase c) = true.
Proof.
  intro c. destruct c as [[] [] [] [] [] [] [] []]; intro H;
    first [ reflexivity | discriminate H ].
Qed.

Lemma split_key_forall :
  forall p s,
    string_forall p s = true ->
    Forall (fun t => string_forall p t = true) (split_key s).
Proof.
  intros p s. induction s as [| c s IH]; intro H.
  - constructor; [ reflexivity | constructor ].
  - cbn [string_forall] in H. apply andb_true_iff in H. destruct H as [Hc Hs].
    specialize (IH Hs). cbn [split_key]. destruct (is_separator c).
    + constructor; [ reflexivity | exact IH ].
    + destruct (split_key s) as [| t ts].
      * constructor; [ | constructor ]. cbn [string_forall]. rewrite Hc. reflexivity.
      * inversion IH as [| ? ? Ht Hts]; subst.
        constructor; [ | exact Hts ]. cbn [string_forall]. rewrite Hc, Ht. reflexivity.
Qed.

Lemma camel_spaces_forall :
  forall p x,
    p " "%char = true ->
    string_forall p x = true ->
    string_forall p (camel_spaces x) = true.
Proof.
  intros p x Hsp. induction x as [| a t IH]; intro H; [ reflexivity | ].
  rewrite camel_spaces_cons. cbn [string_forall] in *.
  apply andb_true_iff in H. destruct H as [Ha Ht]. rewrite Ha. simpl.
  destruct t as [| b t']; [ reflexivity | ].
  destruct (is_lower a && is_upper b); [ | apply IH; exact Ht ].
  cbn [string_forall]. rewrite Hsp, (IH Ht). reflexivity.
Qed.

Lemma prettifyKey_ascii :
  forall k,
    string_forall is_ascii k = true -> string_forall is_ascii (prettifyKey k) = true.
Proof.
  intros k Hk. unfold prettifyKey. apply concat_space_forall; [ reflexivity | ].
  rewrite Forall_map, Forall_map.
  eapply Forall_impl; [ | apply (split_key_forall is_ascii k Hk) ].
  intros t Ht. rewrite camel_replace_spaces.
  pose proof (camel_spaces_forall is_ascii t eq_refl Ht) as H.
  destruct (camel_spaces t) as [| c r]; [ reflexivity | ].
  cbn [capitalize string_forall] in *.
  apply andb_true_iff in H. destruct H as [Hc Hr].
  rewrite (toUpperCase_ascii c Hc), Hr. reflexivity.
Qed.

(** A prettified ASCII key is an ASCII string that holds no [.] and no [_],
    and prettifying it again changes nothing. *)
Theorem prettifyKey_idempotent :
  forall k,
    string_forall is_ascii k = true ->
    string_forall is_ascii (prettifyKey k) = true
    /\ string_forall (fun c => negb (is_separator c)) (prettifyKey k) = true
    /\ prettifyKey (prettifyKey k) = prettifyKey k.
Proof.
  intros k Hk. split; [ apply prettifyKey_ascii; exact Hk | ].
  split; [ apply prettifyKey_separator_free | ].
  unfold prettifyKey at 1.
  rewrite (split_key_whole _ (prettifyKey_separator_free k)).
  cbn [map String.concat].
  rewrite camel_replace_spaces, (camel_spaces_fixed _ (prettifyKey_no_camel k)).
  apply capitalize_fixed. apply prettifyKey_first_not_lower.
Qed.

Lemma prettifyKey_idempotent_witness :
  prettifyKey "council.devAppsLast12m" = "Council Dev Apps Last12m"
  /\ string_forall is_ascii (prettifyKey "council.devAppsLast12m") = true
  /\ string_forall (fun c => negb (is_separator c))
       (prettifyKey "council.devAppsLast12m") = true
  /\ prettifyKey (prettifyKey "council.devAppsLast12m")
     = prettifyKey "council.devAppsLast12m".
Proof.
  split; [ reflexivity | ].
  apply (prettifyKey_idempotent "council.devAppsLast12m"). reflexivity.
Defined.

(* ================================================================== *)
(** ** Properties: the query string *)

Lemma append_nil_r : forall s : string, (s ++ "")%string = s.
Proof.
  induction s as [| c s IH]; simpl; [ reflexivity | rewrite IH; reflexivity ].
Qed.

Lemma url_bytes_char :
  forall c rest,
    url_bytes (urlencode_char c ++ rest) = utf8_bytes c ++ url_bytes rest.
Proof.
  intros c rest. destruct c as [[] [] [] [] [] [] [] []]; reflexivity.
Qed.

Lemma utf8_chars_char :
  forall c bs, utf8_chars (utf8_bytes c ++ bs) = String c (utf8_chars bs).
Proof.
  intros c bs. destruct c as [[] [] [] [] [] [] [] []]; reflexivity.
Qed.

Lemma urlencode_char_safe : forall c, string_forall url_safe (urlencode_char c) = true.
Proof.
  intro c. destruct c as [[] [] [] [] [] [] [] []]; reflexivity.
Qed.

Lemma url_safe_differs :
  forall c, url_safe c = true -> differs_from "&" c = true /\ differs_from "=" c = true.
Proof.
  intro c. destruct c as [[] [] [] [] [] [] [] []]; intro H;
    first [ discriminate H | split; reflexivity ].
Qed.

Lemma url_bytes_urlencode :
  forall s, url_bytes (urlencode s) = string_bytes s.
Proof.
  induction s as [| c s IH]; [ reflexivity | ].
  cbn [urlencode string_bytes]. rewrite url_bytes_char, IH. reflexivity.
Qed.

Lemma utf8_chars_string_bytes : forall s, utf8_chars (string_bytes s) = s.
Proof.
  induction s as [| c s IH]; [ reflexivity | ].
  cbn [string_bytes]. rewrite utf8_chars_char, IH. reflexivity.
Qed.

Lemma urldecode_urlencode : forall s, urldecode (urlencode s) = s.
Proof.
  intro s. unfold urldecode. rewrite url_bytes_urlencode.
  apply utf8_chars_string_bytes.
Qed.

Lemma urlencode_safe : forall s, string_forall url_safe (urlencode s) = true.
Proof.
  induction s as [| c s IH]; [ reflexivity | ].
  cbn [urlencode]. rewrite string_forall_app, urlencode_char_safe, IH. reflexivity.
Qed.

Lemma string_forall_impl :
  forall (p q : ascii -> bool) s,
    (forall c, p c = true -> q c = true) ->
    string_forall p s = true -> string_forall q s = true.
Proof.
  intros p q s Hpq. induction s as [| c s IH]; intro H; [ reflexivity | ].
  cbn [string_forall] in *. apply andb_true_iff in H. destruct H as [Hc Hs].
  rewrite (Hpq c Hc), (IH Hs). reflexivity.
Qed.

Lemma cut_at_app :
  forall sep n v,
    string_forall (differs_from sep) n = true ->
    cut_at sep (n ++ String sep v) = (n, v).
Proof.
  intros sep n v. induction n as [| c n IH]; intro H.
  - cbn [append cut_at]. rewrite Ascii.eqb_refl. reflexivity.
  - cbn [string_forall] in H. apply andb_true_iff in H. destruct H as [Hc Hn].
    unfold differs_from in Hc. apply negb_true_iff in Hc.
    cbn [append cut_at]. rewrite Hc, (IH Hn). reflexivity.
Qed.

Lemma split_at_nonempty : forall sep s, split_at sep s <> [].
Proof.
  intros sep [| c s]; cbn [split_at]; [ discriminate | ].
  destruct (Ascii.eqb c sep); [ discriminate | ].
  destruct (split_at sep s); discriminate.
Qed.

Lemma split_at_whole :
  forall sep t, string_forall (differs_from sep) t = true -> split_at sep t = [t].
Proof.
  intros sep t. induction t as [| c t IH]; intro H; [ reflexivity | ].
  cbn [string_forall] in H. apply andb_true_iff in H. destruct H as [Hc Ht].
  unfold differs_from in Hc. apply negb_true_iff in Hc.
  cbn [split_at]. rewrite Hc, (IH Ht). reflexivity.
Qed.

Lemma split_at_app :
  forall sep t r,
    string_forall (differs_from sep) t = true ->
    split_at sep (t ++ String sep r) = t :: split_at sep r.
Proof.
  intros sep t r. induction t as [| c t IH]; intro H.
  - cbn [append split_at]. rewrite Ascii.eqb_refl. reflexivity.
  - cbn [string_forall] in H. apply andb_true_iff in H. destruct H as [Hc Ht].
    unfold differs_from in Hc. apply negb_true_iff in Hc.
    cbn [append split_at]. rewrite Hc, (IH Ht). reflexivity.
Qed.

Lemma split_at_concat :
  forall sep pieces,
    pieces <> [] ->
    Forall (fun t => string_forall (differs_from sep) t = true) pieces ->
    split_at sep (String.concat (String sep "") pieces) = pieces.
Proof.
  intros sep pieces Hne H. induction H as [| t l Ht Hl IH]; [ contradiction | ].
  destruct l as [| t' l'].
  - cbn [String.concat]. apply split_at_whole. exact Ht.
  - change (String.concat (String sep "") (t :: t' :: l'))
      with (t ++ String sep (String.concat (String sep "") (t' :: l')))%string.
    rewrite (split_at_app sep t _ Ht), IH; [ reflexivity | discriminate ].
Qed.

Lemma params_pair_no_amp :
  forall nv, string_forall (differs_from "&") (params_pair nv) = true.
Proof.
  intros [n v]. unfold params_pair. cbn [fst snd].
  rewrite !string_forall_app. cbn [string_forall].
  rewrite !(string_forall_impl url_safe (differs_from "&"));
    try apply urlencode_safe; try reflexivity;
    intros c Hc; apply (url_safe_differs c Hc).
Qed.

Lemma params_pair_read :
  forall nv,
    (let (n, v) := cut_at "=" (params_pair nv) in (urldecode n, urldecode v)) = nv.
Proof.
  intros [n v]. unfold params_pair. cbn [fst snd].
  change (urlencode n ++ "=" ++ urlencode v)%string
    with (urlencode n ++ String "=" (urlencode v))%string.
  rewrite cut_at_app.
  - rewrite !urldecode_urlencode. reflexivity.
  - apply (string_forall_impl url_safe); [ | apply urlencode_safe ].
    intros c Hc. apply (url_safe_differs c Hc).
Qed.

(** Reading back what [URLSearchParams.toString] wrote gives the pairs. *)
Lemma params_read_toString : forall p, params_read (params_toString p) = p.
Proof.
  intro p. destruct p as [| nv p]; [ reflexivity | ].
  unfold params_read.
  assert (Hne : params_toString (nv :: p) <> "").
  { unfold params_toString. cbn [map].
    destruct (map params_pair p) as [| x l]; cbn [String.concat];
      destruct nv as [n v]; unfold params_pair; cbn [fst snd];
      destruct (urlencode n); cbn [append]; discriminate. }
  destruct (params_toString (nv :: p)) as [| c s] eqn:E; [ contradiction | ].
  rewrite <- E. unfold params_toString.
  rewrite (split_at_concat "&"); [ | discriminate | ].
  - rewrite map_map. rewrite <- (map_id (nv :: p)) at 2.
    apply map_ext. intro x. apply params_pair_read.
  - apply Forall_forall. intros t Ht. apply in_map_iff in Ht.
    destruct Ht as [x [<- _]]. apply params_pair_no_amp.
Qed.

(** The key that [qs] returns tells the collected parameters: they can be
    read back from it, so two argument objects get the same key only when
    they have the same parameter names and values, in the same order. *)
Theorem qs_key_determines_params :
  (forall obj key, qs obj = Normal key -> qs_params obj = Normal (params_read key))
  /\ (forall a b key,
        qs a = Normal key -> qs b = Normal key -> qs_params a = qs_params b).
Proof.
  assert (H : forall obj key,
             qs obj = Normal key -> qs_params obj = Normal (params_read key)).
  { intros obj key Hqs. unfold qs in Hqs.
    destruct (qs_params obj) as [p | e]; simpl in Hqs; [ | discriminate Hqs ].
    injection Hqs as <-. rewrite params_read_toString. reflexivity. }
  split; [ exact H | ].
  intros a b key Ha Hb. rewrite (H a key Ha), (H b key Hb). reflexivity.
Qed.

Lemma qs_key_determines_params_witness :
  qs_params (VObj [("q", VStr "a b&c"); ("lat", VNum 1.5)])
  = Normal (params_read "q=a+b%26c&lat=1.5").
Proof.
  apply (proj1 qs_key_determines_params). vm_compute. reflexivity.
Defined.

Lemma params_set_fresh :
  forall name value p,
    ~ In name (map fst p) -> params_set name value p = p ++ [(name, value)].
Proof.
  intros name value p. induction p as [| [n v] p IH]; intro H; [ reflexivity | ].
  cbn [params_set]. simpl in H.
  destruct (String.eqb n name) eqn:E.
  - apply String.eqb_eq in E. exfalso. apply H. left. exact E.
  - rewrite IH by tauto. reflexivity.
Qed.

Lemma qs_loop_kept :
  forall es strs p,
    NoDup (map fst es) ->
    (forall k, In k (map fst es) -> ~ In k (map fst p)) ->
    mapM ToString (map snd (qs_kept es)) = Normal strs ->
    forEachM (fun kv p =>
                if qs_skipped (snd kv) then Normal p
                else s <- ToString (snd kv) ;; Normal (params_set (fst kv) s p))
      es p
    = Normal (p ++ combine (map fst (qs_kept es)) strs).
Proof.
  induction es as [| [k v] es IH]; intros strs p Hnd Hfresh Hstrs.
  - unfold qs_kept in *. simpl in Hstrs. injection Hstrs as <-. simpl.
    rewrite app_nil_r. reflexivity.
  - rewrite forEachM_cons. cbn [fst snd].
    simpl in Hnd. inversion Hnd as [| ? ? Hk Hnd']; subst.
    unfold qs_kept in *. cbn [filter snd] in Hstrs.
    destruct (qs_skipped v) eqn:Eskip; cbn [negb] in Hstrs.
    + rewrite bind_Normal. cbn [filter snd]. rewrite Eskip. cbn [negb].
      apply IH; [ exact Hnd' | | exact Hstrs ].
      intros k' Hk'. apply Hfresh. right. exact Hk'.
    + cbn [map snd] in Hstrs. rewrite mapM_cons in Hstrs.
      destruct (ToString v) as [s | e]; [ | simpl in Hstrs; discriminate Hstrs ].
      rewrite bind_Normal in Hstrs.
      destruct (mapM ToString
                  (map snd (filter (fun kv => negb (qs_skipped (snd kv))) es)))
        as [strs' | e] eqn:E; [ | simpl in Hstrs; discriminate Hstrs ].
      rewrite bind_Normal in Hstrs.
      injection Hstrs as <-. rewrite !bind_Normal.
      rewrite params_set_fresh by (apply Hfresh; left; reflexivity).
      rewrite (IH strs'); [ | exact Hnd' | | reflexivity ].
      * cbn [filter snd]. rewrite Eskip. cbn [negb map combine fst].
        rewrite <- app_assoc. reflexivity.
      * intros k' Hk' Hin. rewrite map_app in Hin. apply in_app_or in Hin.
        destruct Hin as [Hin | Hin].
        -- apply (Hfresh k'); [ right; exact Hk' | exact Hin ].
        -- simpl in Hin. destruct Hin as [<- | []]. apply Hk. exact Hk'.
Qed.

(** [qs] leaves out the arguments that are [undefined], [null] or the empty
    string and keeps the others in their order, each with its [String(v)]:
    an argument [0] or [false] is sent, not dropped. *)
Theorem qs_keeps_all_but_blank :
  forall es strs,
    NoDup (map fst es) ->
    mapM ToString (map snd (qs_kept es)) = Normal strs ->
    qs (VObj es) = Normal (params_toString (combine (map fst (qs_kept es)) strs)).
Proof.
  intros es strs Hnd Hstrs. unfold qs, qs_params. cbn [Object_entries].
  rewrite bind_Normal.
  rewrite (qs_loop_kept es strs [] Hnd (fun _ _ H => H) Hstrs). reflexivity.
Qed.

Lemma qs_keeps_all_but_blank_witness :
  qs (VObj [("q", VStr ""); ("lat", VNum 0); ("flag", VBool false); ("x", VNull)])
  = Normal "lat=0&flag=false".
Proof.
  apply (qs_keeps_all_but_blank
           [("q", VStr ""); ("lat", VNum 0); ("flag", VBool false); ("x", VNull)]
           ["0"; "false"]).
  - repeat constructor; simpl; intuition discriminate.
  - vm_compute. reflexivity.
Defined.

(* ================================================================== *)
(** ** Properties: the cache of requests *)

Lemma cache_get_set_same :
  forall key req c, cache_get key (cache_set key req c) = Some req.
Proof.
  intros key req c. induction c as [| [k r] c IH]; cbn [cache_set cache_get].
  - rewrite String.eqb_refl. reflexivity.
  - destruct (String.eqb k key) eqn:E; cbn [cache_get].
    + rewrite String.eqb_refl. reflexivity.
    + rewrite E. exact IH.
Qed.

Lemma cache_get_set_other :
  forall k key req c, k <> key -> cache_get k (cache_set key req c) = cache_get k c.
Proof.
  intros k key req c Hk. induction c as [| [k' r] c IH]; cbn [cache_set cache_get].
  - destruct (String.eqb key k) eqn:E; [ | reflexivity ].
    apply String.eqb_eq in E. symmetry in E. contradiction.
  - destruct (String.eqb k' key) eqn:E; cbn [cache_get].
    + apply String.eqb_eq in E. subst k'.
      destruct (String.eqb key k) eqn:E'; [ | reflexivity ].
      apply String.eqb_eq in E'. symmetry in E'. contradiction.
    + rewrite IH. reflexivity.
Qed.

Lemma cache_get_None :
  forall key c, cache_get key c = None <-> ~ In key (map fst c).
Proof.
  intros key c. induction c as [| [k r] c IH]; cbn [cache_get map fst In].
  - tauto.
  - destruct (String.eqb k key) eqn:E.
    + apply String.eqb_eq in E. split; [ discriminate | tauto ].
    + apply String.eqb_neq in E. tauto.
Qed.

Lemma cache_set_absent :
  forall key req c, cache_get key c = None -> cache_set key req c = c ++ [(key, req)].
Proof.
  intros key req c. induction c as [| [k r] c IH]; cbn [cache_set cache_get];
    intro H; [ reflexivity | ].
  destruct (String.eqb k key); [ discriminate H | ].
  rewrite (IH H). reflexivity.
Qed.

Lemma fetchDevelopment_cases :
  forall args signal w req w',
    fetchDevelopment args signal w = Normal (req, w') ->
    exists key,
      qs args = Normal key
      /\ ((cache_get key (cache w) = Some req /\ w' = w)
          \/ (cache_get key (cache w) = None
              /\ req = List.length (requests w)
              /\ w' = {| cache := cache_set key req (cache w);
                         requests := requests w ++ [(request_url key, signal)] |})).
Proof.
  intros args signal w req w' H. unfold fetchDevelopment in H.
  destruct (qs args) as [key | e]; [ | discriminate H ].
  rewrite bind_Normal in H. exists key. split; [ reflexivity | ].
  destruct (cache_get key (cache w)) as [r |].
  - injection H as <- <-. left. split; reflexivity.
  - injection H as <- <-. right. repeat split.
Qed.

Lemma fetchDevelopment_keeps :
  forall args signal w req w' k r,
    fetchDevelopment args signal w = Normal (req, w') ->
    cache_get k (cache w) = Some r -> cache_get k (cache w') = Some r.
Proof.
  intros args signal w req w' k r H Hk.
  destruct (fetchDevelopment_cases _ _ _ _ _ H) as [key [_ [[_ ->] | [Hmiss [_ ->]]]]].
  - exact Hk.
  - cbn [cache]. rewrite cache_get_set_other; [ exact Hk | ].
    intros ->. rewrite Hmiss in Hk. discriminate Hk.
Qed.

Lemma calls_keep :
  forall w w' k r,
    calls w w' -> cache_get k (cache w) = Some r -> cache_get k (cache w') = Some r.
Proof.
  intros w w' k r H. induction H as [| w w1 w2 args signal req _ IH Hstep];
    intro Hk; [ exact Hk | ].
  apply (fetchDevelopment_keeps _ _ _ _ _ _ _ Hstep). apply IH. exact Hk.
Qed.

(** Once [fetchDevelopment] has been called with some arguments, every later
    call with arguments of the same key returns the promise of the first
    call and issues no request, whatever its abort signal and whatever was
    requested in between: an entry of the cache is never replaced or
    removed. *)
Theorem cached_request_is_reused :
  forall args signal w req w1 w2 args' signal' key,
    fetchDevelopment args signal w = Normal (req, w1) ->
    calls w1 w2 ->
    qs args = Normal key ->
    qs args' = Normal key ->
    fetchDevelopment args' signal' w2 = Normal (req, w2).
Proof.
  intros args signal w req w1 w2 args' signal' key H Hcalls Hkey Hkey'.
  assert (Hcached : cache_get key (cache w1) = Some req).
  { destruct (fetchDevelopment_cases _ _ _ _ _ H)
      as [key0 [Hkey0 [[Hhit ->] | [_ [_ ->]]]]];
      rewrite Hkey in Hkey0; injection Hkey0 as <-.
    - exact Hhit.
    - cbn [cache]. apply cache_get_set_same. }
  unfold fetchDevelopment. rewrite Hkey', bind_Normal.
  rewrite (calls_keep _ _ _ _ Hcalls Hcached). reflexivity.
Qed.

Lemma cached_request_is_reused_witness :
  fetchDevelopment (VObj [("q", VStr "a"); ("lat", VNull)]) (Some 7%nat)
    {| cache := [("q=a", 0%nat); ("q=b", 1%nat)];
       requests := [(request_url "q=a", Some 1%nat); (request_url "q=b", None)] |}
  = Normal (0%nat,
            {| cache := [("q=a", 0%nat); ("q=b", 1%nat)];
               requests := [(request_url "q=a", Some 1%nat); (request_url "q=b", None)] |}).
Proof.
  apply (cached_request_is_reused (VObj [("q", VStr "a")]) (Some 1%nat) no_requests
           0%nat
           {| cache := [("q=a", 0%nat)];
              requests := [(request_url "q=a", Some 1%nat)] |}
           _ _ _ "q=a").
  - vm_compute. reflexivity.
  - apply (calls_more _ _ _ (VObj [("q", VStr "b")]) None 1%nat (calls_none _)).
    vm_compute. reflexivity.
  - vm_compute. reflexivity.
  - vm_compute. reflexivity.
Defined.

Lemma fetchDevelopment_consistent :
  forall args signal w req w',
    cache_consistent w ->
    fetchDevelopment args signal w = Normal (req, w') ->
    cache_consistent w'.
Proof.
  intros args signal w req w' (Hlen & Hnd & Hreq) H.
  destruct (fetchDevelopment_cases _ _ _ _ _ H)
    as [key [_ [[_ ->] | [Hmiss [-> ->]]]]].
  - repeat split; assumption.
  - rewrite (cache_set_absent _ _ _ Hmiss). unfold cache_consistent.
    cbn [cache requests]. rewrite !length_app, map_app. cbn [List.length map fst].
    split; [ lia | ]. split.
    + apply NoDup_app; [ exact Hnd | repeat constructor; intros [] | ].
      intros k Hk [E | []]. subst k.
      apply (proj1 (cache_get_None key (cache w)) Hmiss Hk).
    + intros k r Hk.
      destruct (String.eqb k key) eqn:E.
      * apply String.eqb_eq in E. subst k.
        rewrite <- (cache_set_absent _ (List.length (requests w)) _ Hmiss) in Hk.
        rewrite cache_get_set_same in Hk. injection Hk as <-.
        exists signal. rewrite nth_error_app2 by lia.
        rewrite Nat.sub_diag. reflexivity.
      * apply String.eqb_neq in E.
        rewrite <- (cache_set_absent _ (List.length (requests w)) _ Hmiss) in Hk.
        rewrite (cache_get_set_other _ _ _ _ E) in Hk.
        destruct (Hreq k r Hk) as [sig Hsig]. exists sig.
        rewrite nth_error_app1; [ exact Hsig | ].
        apply nth_error_Some. rewrite Hsig. discriminate.
Qed.

(** Starting with an empty cache, [fetchDevelopment] issues exactly one
    request for each distinct key it is ever called with.  After a call the
    cache holds the key of its arguments with the promise that the call
    returns, and that promise is the request of the url of the key; a call
    whose key was not cached appends this one request, with its own abort
    signal, and a call whose key was cached changes nothing.  So the cache
    holds each key once, there are as many requests as keys, and the promise
    stored for any key is that of the request of its url. *)
Theorem one_request_per_key :
  forall w args signal req w',
    calls no_requests w ->
    fetchDevelopment args signal w = Normal (req, w') ->
    exists key,
      qs args = Normal key
      /\ cache_get key (cache w') = Some req
      /\ (exists signal',
            nth_error (requests w') req = Some (request_url key, signal'))
      /\ (cache_get key (cache w) = None ->
          requests w' = requests w ++ [(request_url key, signal)]
          /\ req = List.length (requests w))
      /\ (cache_get key (cache w) <> None -> w' = w)
      /\ List.length (requests w') = List.length (cache w')
      /\ NoDup (map fst (cache w'))
      /\ forall key' req',
           cache_get key' (cache w') = Some req' ->
           exists signal',
             nth_error (requests w') req' = Some (request_url key', signal').
Proof.
  intros w args signal req w' H Hcall.
  assert (Hw : cache_consistent w).
  { clear Hcall. remember no_requests as w0 eqn:E.
    induction H as [| w w1 w2 args' signal' req' _ IH Hstep].
    - subst w. repeat split; [ constructor | ]. intros key r Hk. discriminate Hk.
    - apply (fetchDevelopment_consistent _ _ _ _ _ (IH E) Hstep). }
  destruct (fetchDevelopment_consistent _ _ _ _ _ Hw Hcall) as (Hlen & Hnd & Hreq).
  destruct (fetchDevelopment_cases _ _ _ _ _ Hcall) as [key [Hkey Hcases]].
  exists key. split; [ exact Hkey | ].
  assert (Hcached : cache_get key (cache w') = Some req).
  { destruct Hcases as [[Hhit ->] | [_ [_ ->]]];
      [ exact Hhit | cbn [cache]; apply cache_get_set_same ]. }
  split; [ exact Hcached | ].
  split; [ apply Hreq; exact Hcached | ].
  split; [ | split ].
  - intro Hmiss. destruct Hcases as [[Hhit _] | [_ [-> ->]]].
    + rewrite Hmiss in Hhit. discriminate Hhit.
    + split; reflexivity.
  - intro Hhit. destruct Hcases as [[_ ->] | [Hmiss _]];
      [ reflexivity | contradiction ].
  - repeat split; assumption.
Qed.

Lemma one_request_per_key_witness :
  exists key,
    qs (VObj [("q", VStr "a"); ("lat", VNull)]) = Normal key
    /\ cache_get key [("q=b", 0%nat); ("q=a", 1%nat)] = Some 1%nat
    /\ (exists signal',
          nth_error [(request_url "q=b", None); (request_url "q=a", Some 7%nat)] 1
          = Some (request_url key, signal'))
    /\ (cache_get key [("q=b", 0%nat)] = None ->
        [(request_url "q=b", None); (request_url "q=a", Some 7%nat)]
        = [(request_url "q=b", None)] ++ [(request_url key, Some 7%nat)]
        /\ 1%nat = List.length [(request_url "q=b", @None nat)])
    /\ (cache_get key [("q=b", 0%nat)] <> None ->
        {| cache := [("q=b", 0%nat); ("q=a", 1%nat)];
           requests := [(request_url "q=b", None); (request_url "q=a", Some 7%nat)] |}
        = {| cache := [("q=b", 0%nat)]; requests := [(request_url "q=b", None)] |})
    /\ List.length [(request_url "q=b", @None nat); (request_url "q=a", Some 7%nat)]
       = List.length [("q=b", 0%nat); ("q=a", 1%nat)]
    /\ NoDup (map fst [("q=b", 0%nat); ("q=a", 1%nat)])
    /\ forall key' req',
         cache_get key' [("q=b", 0%nat); ("q=a", 1%nat)] = Some req' ->
         exists signal',
           nth_error [(request_url "q=b", None); (request_url "q=a", Some 7%nat)] req'
           = Some (request_url key', signal').
Proof.
  apply (one_request_per_key
           {| cache := [("q=b", 0%nat)]; requests := [(request_url "q=b", None)] |}
           (VObj [("q", VStr "a"); ("lat", VNull)]) (Some 7%nat) 1%nat
           {| cache := [("q=b", 0%nat); ("q=a", 1%nat)];
              requests := [(request_url "q=b", None); (request_url "q=a", Some 7%nat)] |}).
  - apply (calls_more _ _ _ (VObj [("q", VStr "b")]) None 0%nat (calls_none _)).
    vm_compute. reflexivity.
  - vm_compute. reflexivity.
Defined.

(* ================================================================== *)
(** ** Properties: error messages *)

Lemma string_forall_In :
  forall p s,
    string_forall p s = true ->
    forall c, In c (list_ascii_of_string s) -> p c = true.
Proof.
  intros p s. induction s as [| a s IH]; intros H c Hc; [ contradiction | ].
  cbn [string_forall] in H. apply andb_true_iff in H. destruct H as [Ha Hs].
  destruct Hc as [<- | Hc]; [ exact Ha | apply IH; assumption ].
Qed.

Section NumberCharacters.
Variable p : ascii -> bool.
Hypothesis Hp : string_forall p "0123456789-.e+NaInfity" = true.

Ltac in_alphabet :=
  apply (string_forall_In _ _ Hp); cbn [list_ascii_of_string In];
  repeat (first [ left; reflexivity | right ]).

Lemma digit_char_alphabet : forall z, p (digit_char (z mod 10)) = true.
Proof.
  intro z. unfold digit_char.
  assert (H : (0 <= z mod 10 < 10)%Z) by (apply Z.mod_pos_bound; lia).
  assert (Hn : (Z.to_nat (z mod 10) < 10)%nat) by lia.
  generalize dependent (Z.to_nat (z mod 10)). intros r Hr.
  do 10 (destruct r as [| r]; [ in_alphabet | ]). lia.
Qed.

Lemma digits_of_alphabet :
  forall fuel z acc,
    string_forall p acc = true -> string_forall p (digits_of fuel z acc) = true.
Proof.
  induction fuel as [| fuel IH]; intros z acc Hacc; cbn [digits_of]; [ exact Hacc | ].
  assert (Hstep : string_forall p (String (digit_char (z mod 10)) acc) = true).
  { cbn [string_forall]. rewrite digit_char_alphabet, Hacc. reflexivity. }
  destruct (z <? 10)%Z; [ exact Hstep | apply IH; exact Hstep ].
Qed.

Lemma string_of_Z_alphabet : forall z, string_forall p (string_of_Z z) = true.
Proof.
  intro z. unfold string_of_Z. destruct (z <? 0)%Z.
  - rewrite string_forall_app. apply andb_true_intro. split.
    + cbn [string_forall]. rewrite andb_true_r. in_alphabet.
    + apply digits_of_alphabet. reflexivity.
  - apply digits_of_alphabet. reflexivity.
Qed.

Lemma literal_alphabet :
  forall s,
    (forall c, In c (list_ascii_of_string s) ->
               In c (list_ascii_of_string "0123456789-.e+NaInfity")) ->
    string_forall p s = true.
Proof.
  induction s as [| a s IH]; intro H; [ reflexivity | ].
  cbn [string_forall]. apply andb_true_intro. split.
  - apply (string_forall_In _ _ Hp). apply H. left. reflexivity.
  - apply IH. intros c Hc. apply H. right. exact Hc.
Qed.

Ltac literal :=
  apply literal_alphabet; cbn [list_ascii_of_string In]; intros c Hc;
  repeat (destruct Hc as [E | Hc];
          [ subst c; repeat (first [ left; reflexivity | right ]) | ]);
  contradiction.

Lemma layout_alphabet :
  forall s n k, string_forall p (NumberToString.layout s n k) = true.
Proof.
  intros s n k. unfold NumberToString.layout, NumberToString.exponent_part.
  pose proof (string_of_Z_alphabet s) as Hs.
  repeat match goal with
         | |- context [if ?b then _ else _] => destruct b
         end;
    repeat rewrite string_forall_app;
    repeat (apply andb_true_intro; split);
    first [ exact Hs
          | apply string_of_Z_alphabet
          | apply string_forall_substring; exact Hs
          | apply string_forall_repeat; in_alphabet
          | reflexivity
          | in_alphabet
          | literal ].
Qed.

Lemma Number_toString_alphabet :
  forall n, string_forall p (Number_toString n) = true.
Proof.
  intro n. unfold Number_toString, NumberToString.toString.
  destruct (Prim2SF n) as [sg | sg | | sg m e].
  - literal.
  - destruct sg; literal.
  - literal.
  - assert (H : string_forall p (NumberToString.positive_finite m e) = true).
    { unfold NumberToString.positive_finite.
      destruct (NumberToString.shortest _ _ _ _) as [[s n'] k].
      apply layout_alphabet. }
    destruct sg; [ | exact H ].
    rewrite string_forall_app. apply andb_true_intro. split; [ literal | exact H ].
Qed.
End NumberCharacters.

Lemma includes_needs_first :
  forall c sub s,
    string_forall (differs_from c) s = true -> includes s (String c sub) = false.
Proof.
  intros c sub s. induction s as [| a s IH]; intro H; [ reflexivity | ].
  cbn [string_forall] in H. apply andb_true_iff in H. destruct H as [Ha Hs].
  cbn [includes String.prefix]. rewrite (IH Hs), orb_false_r.
  unfold differs_from in Ha. apply negb_true_iff in Ha.
  destruct (ascii_dec c a) as [E | _]; [ | reflexivity ].
  subst a. rewrite Ascii.eqb_refl in Ha. discriminate Ha.
Qed.

(** A response that is not [ok] is reported with its status line: the
    promise rejects with the message [HTTP <status> <statusText>], and
    [prettyError] shows that message unchanged when the status text holds no
    [<]. *)
Theorem http_error_shown_verbatim :
  forall r,
    ok r = false ->
    string_forall (differs_from "<") (statusText r) = true ->
    handle_response r = Rejected (ThrownError (http_error_message r))
    /\ prettyError (ThrownError (http_error_message r))
       = ("HTTP " ++ Number_toString (status r) ++ " " ++ statusText r)%string.
Proof.
  intros r Hok Htext. split.
  - unfold handle_response. rewrite Hok. reflexivity.
  - cbn [prettyError]. unfold error_text.
    rewrite (includes_needs_first "<" "!DOCTYPE" (http_error_message r)).
    + rewrite andb_false_r. reflexivity.
    + unfold http_error_message. rewrite !string_forall_app.
      rewrite (Number_toString_alphabet (differs_from "<") eq_refl), Htext.
      reflexivity.
Qed.

Lemma http_error_shown_verbatim_witness :
  handle_response {| ok := false; status := 404; statusText := "Not Found";
                     json := Resolved VNull |}
  = Rejected (ThrownError "HTTP 404 Not Found")
  /\ prettyError (ThrownError "HTTP 404 Not Found") = "HTTP 404 Not Found".
Proof.
  apply (http_error_shown_verbatim
           {| ok := false; status := 404; statusText := "Not Found";
              json := Resolved VNull |}); reflexivity.
Defined.

(* ================================================================== *)
(** ** Properties: the request of a search *)

Lemma trimStart_blank :
  forall q, string_forall is_js_space q = true -> trimStart q = "".
Proof.
  induction q as [| c q IH]; intro H; [ reflexivity | ].
  cbn [string_forall] in H. apply andb_true_iff in H. destruct H as [Hc Hq].
  cbn [trimStart]. rewrite Hc. apply IH. exact Hq.
Qed.

Lemma trim_blank : forall q, string_forall is_js_space q = true -> trim q = "".
Proof. intros q H. unfold trim. rewrite (trimStart_blank q H). reflexivity. Qed.

Lemma trimEnd_no_space_only :
  forall s, trimEnd s = "" -> string_forall is_js_space s = true.
Proof.
  induction s as [| c s IH]; intro H; [ reflexivity | ].
  cbn [trimEnd] in H. destruct (trimEnd s) as [| a r] eqn:E; [ | discriminate H ].
  destruct (is_js_space c) eqn:Ec; [ | discriminate H ].
  cbn [string_forall]. rewrite Ec, (IH eq_refl). reflexivity.
Qed.

Lemma trimStart_blank_inv :
  forall q, string_forall is_js_space (trimStart q) = true ->
            string_forall is_js_space q = true.
Proof.
  induction q as [| c q IH]; intro H; [ reflexivity | ].
  cbn [trimStart] in H. cbn [string_forall].
  destruct (is_js_space c) eqn:Ec; [ apply IH; exact H | ].
  cbn [string_forall] in H. rewrite Ec in H. discriminate H.
Qed.

(** The query string of a search lists, in this order, the trimmed query
    when it is not blank and each coordinate whose input is not empty; a
    search with a blank query and no coordinate requests the bare endpoint,
    and a query is blank exactly when it holds white space only. *)
Theorem search_query_string :
  forall (Number_ : string -> float) q lat lng,
    qs (toArgs Number_ q lat lng)
    = Normal (String.concat "&" (search_pieces Number_ q lat lng))
    /\ (trim q = "" <-> string_forall is_js_space q = true)
    /\ (trim q = "" ->
        forall signal,
          fetchDevelopment (toArgs Number_ q "" "") signal no_requests
          = Normal (0%nat, {| cache := [("", 0%nat)]; requests := [(BASE, signal)] |})).
Proof.
  intros Number_ q lat lng. split; [ | split ].
  - unfold toArgs, search_pieces.
    destruct (trim q) as [| c t]; destruct lat as [| a1 l1]; destruct lng as [| a2 l2];
      reflexivity.
  - split.
    + intro H. apply trimStart_blank_inv. apply trimEnd_no_space_only. exact H.
    + apply trim_blank.
  - intros H signal. unfold toArgs. rewrite H. reflexivity.
Qed.

Lemma search_query_string_witness :
  qs (toArgs (fun _ => 151.2%float) "  12 George St " "" "151.2")
  = Normal "q=12+George+St&lng=151.2"
  /\ fetchDevelopment (toArgs (fun _ => 0%float) "   " "" "") (Some 3%nat) no_requests
     = Normal (0%nat, {| cache := [("", 0%nat)]; requests := [(BASE, Some 3%nat)] |}).
Proof.
  split.
  - apply (proj1 (search_query_string (fun _ => 151.2%float)
                    "  12 George St " "" "151.2")).
  - destruct (search_query_string (fun _ => 0%float) "   " "" "") as (_ & Hblank & Hbase).
    apply Hbase. apply Hblank. reflexivity.
Defined.

(* ================================================================== *)
(** ** Properties: the walks and the call stack *)





















(* ================================================================== *)
(** ** Properties: what the displayed sections throw *)

























Section RowsInherit.
Variable Q : jsval -> Prop.
Hypothesis Q_entries :
  forall v es, Q v -> Object_entries v = Normal es -> Forall (fun kv => Q (snd kv)) es.
Hypothesis Q_elements : forall xs, Q (VArr xs) -> Forall Q xs.





End RowsInherit.





